(** * yui-relayer: paths, the path registry, the path status check and
      the Ethereum transaction signer

    A shallow embedding of [core/path.go] and of the Ethereum chain's
    [CallOpts]/[TxOpts] helpers, with the properties of their specification.

    Conventions of the embedding.
    - A Go [string] is a [string]; a Go [error] is an [option string]
      ([None] is [nil], [Some msg] an error whose text is [msg]).
    - [Paths] (a Go [map[string]*Path]) is a [gmap string Path].
    - The pointer fields [Src], [Dst] and [Strategy] of a [Path] are taken
      non-nil, which the specification makes a precondition of every
      operation; pointers that the code itself tests against [nil] (the
      query responses of the status check) are [option]s.
    - A run-time panic (a nil dereference) is the outcome [Panics].
    - The two goroutines of a stage of the status check share the variable
      [err]; the order in which they assign and read it is a parameter of the
      check (a [schedule]), and memory is sequentially consistent. *)

From Stdlib Require Import ZArith Ascii String List Bool Lia.
From stdpp Require Import gmap strings list fin_maps.

Local Open Scope string_scope.

(** ** Errors and outcomes *)

Definition error : Type := option string.

Definition is_nil {A} (o : option A) : bool :=
  match o with None => true | Some _ => false end.

Inductive outcome (A : Type) : Type :=
| Returns (a : A)
| Panics.
Arguments Returns {A} a.
Arguments Panics {A}.

(** ** The data model of [core/path.go] *)

Record PathEnd : Type := {
  ChainID : string;
  ClientID : string;
  ConnectionID : string;
  ChannelID : string;
  PortID : string;
  Order : string;
  Version : string
}.

(** [StrategyCfg] is declared outside [path.go]; only its [Type] tag is
    used here. *)
Record StrategyCfg : Type := {
  Type_ : string
}.

Record Path : Type := {
  Src : PathEnd;
  Dst : PathEnd;
  Strategy : StrategyCfg
}.

Record PathStatus : Type := {
  Chains : bool;
  Clients : bool;
  Connection : bool;
  Channel : bool
}.

Record PathWithStatus : Type := {
  pws_Path : Path;
  Status : PathStatus
}.

(** The zero value [PathEnd{}]. *)
Definition zero_PathEnd : PathEnd :=
  {| ChainID := ""; ClientID := ""; ConnectionID := ""; ChannelID := "";
     PortID := ""; Order := ""; Version := "" |}.

(** ** Random identifiers *)

(** [crypto/rand.Reader]: an endless sequence of draws and the position of
    the next one. [rand.Int(rand.Reader, max)] consumes one draw and yields
    a value in [[0, max)]. *)
Record Reader : Type := {
  draws : nat -> Z;
  pos : nat
}.

Definition rand_Int (max : Z) (r : Reader) : Z * Reader :=
  (draws r (pos r) mod max, {| draws := draws r; pos := S (pos r) |})%Z.

Definition chars : list ascii :=
  list_ascii_of_string "abcdefghijklmnopqrstuvwxyz".

(** The loop of [RandLowerCaseLetterString], [n] iterations left; [b] is the
    builder's content. *)
Fixpoint rand_letters (n : nat) (b : string) (r : Reader) : string * Reader :=
  match n with
  | O => (b, r)
  | S n' =>
      let '(i, r') := rand_Int (Z.of_nat (List.length chars)) r in
      rand_letters n' (b +:+ String (nth (Z.to_nat i) chars "a"%char) "") r'
  end.

Definition RandLowerCaseLetterString (length : Z) (r : Reader) : string * Reader :=
  rand_letters (Z.to_nat length) "" r.

(** ** Operations on a single path *)

(** The pointer that [End] returns: one of the path's own two ends, or a
    newly allocated [PathEnd]. *)
Inductive PathEndRef : Type :=
| ref_Dst
| ref_Src
| ref_new (pe : PathEnd).

Definition load (p : Path) (r : PathEndRef) : PathEnd :=
  match r with
  | ref_Dst => Dst p
  | ref_Src => Src p
  | ref_new pe => pe
  end.

Definition Path_End (p : Path) (chainID : string) : PathEndRef :=
  if String.eqb (ChainID (Dst p)) chainID then ref_Dst
  else if String.eqb (ChainID (Src p)) chainID then ref_Src
  else ref_new zero_PathEnd.

Definition GenPath (srcChainID dstChainID srcPortID dstPortID order version : string)
    (r : Reader) : Path * Reader :=
  let '(srcClient, r) := RandLowerCaseLetterString 10 r in
  let '(srcConn, r) := RandLowerCaseLetterString 10 r in
  let '(srcChan, r) := RandLowerCaseLetterString 10 r in
  let '(dstClient, r) := RandLowerCaseLetterString 10 r in
  let '(dstConn, r) := RandLowerCaseLetterString 10 r in
  let '(dstChan, r) := RandLowerCaseLetterString 10 r in
  ({| Src := {| ChainID := srcChainID; ClientID := srcClient;
                ConnectionID := srcConn; ChannelID := srcChan;
                PortID := srcPortID; Order := order; Version := version |};
      Dst := {| ChainID := dstChainID; ClientID := dstClient;
                ConnectionID := dstConn; ChannelID := dstChan;
                PortID := dstPortID; Order := order; Version := version |};
      Strategy := {| Type_ := "naive" |} |}, r).

(** [fmt.Errorf] of the order mismatch: both observed orders are printed. *)
Definition order_mismatch (srcOrder dstOrder : string) : string :=
  "both sides must have same order ('ORDERED' or 'UNORDERED'), got src("
    +:+ srcOrder +:+ ") and dst(" +:+ dstOrder +:+ ")".

Section Validation.

(** [PathEnd.Validate] and [Path.ValidateStrategy] are declared in
    other files of the package; [Validate], [Add] and [AddForce] are
    embedded for any such pair of validators. *)
Variable PathEnd_Validate : PathEnd -> error.
Variable Path_ValidateStrategy : Path -> error.

Definition Path_Validate (p : Path) : error :=
  match PathEnd_Validate (Src p) with
  | Some err => Some err
  | None =>
      if String.eqb (Version (Src p)) "" then
        Some "source must specify a version"
      else
        match PathEnd_Validate (Dst p) with
        | Some err => Some err
        | None =>
            match Path_ValidateStrategy p with
            | Some err => Some err
            | None =>
                if negb (String.eqb (Order (Src p)) (Order (Dst p))) then
                  Some (order_mismatch (Order (Src p)) (Order (Dst p)))
                else None
            end
        end
  end.

(** *** The registry. An operation returns its error and the registry as
    it leaves it. *)

Definition Paths_Add (p : gmap string Path) (name : string) (path : Path)
    : error * gmap string Path :=
  match Path_Validate path with
  | Some err => (Some err, p)
  | None =>
      match p !! name with
      | Some _ => (Some ("path with name " +:+ name +:+ " already exists"), p)
      | None => (None, <[name := path]> p)
      end
  end.

(** The notice printed on overwriting is not part of the result. *)
Definition Paths_AddForce (p : gmap string Path) (name : string) (path : Path)
    : error * gmap string Path :=
  match Path_Validate path with
  | Some err => (Some err, p)
  | None => (None, <[name := path]> p)
  end.

End Validation.

Definition Paths_Get (p : gmap string Path) (name : string) : option Path * error :=
  match p !! name with
  | Some pth => (Some pth, None)
  | None => (None, Some ("path with name " +:+ name +:+ " does not exist"))
  end.

(** The condition of the loop of [PathsFromChains]. *)
Definition between (src dst : string) (path : Path) : bool :=
  (String.eqb (ChainID (Dst path)) src || String.eqb (ChainID (Src path)) src)
  && (String.eqb (ChainID (Dst path)) dst || String.eqb (ChainID (Src path)) dst).

(** [for name, path := range p { if ... { out[name] = path } }] *)
Definition collect (src dst : string) (p : gmap string Path) : gmap string Path :=
  map_fold (fun name path out =>
              if between src dst path then <[name := path]> out else out)
           ∅ p.

Definition Paths_PathsFromChains (p : gmap string Path) (src dst : string)
    : gmap string Path * error :=
  let out := collect src dst p in
  if Nat.eqb (size out) 0 then
    (∅, Some ("failed to find path in config between chains "
                +:+ src +:+ " and " +:+ dst))
  else (out, None).

(** ** The status check *)

(** *** The types of ibc-go that the check reads *)

(** [ibcexported.Height] is an interface; a variable of that type holds a
    height or [nil]. *)
Record Height : Type := {
  RevisionNumber : Z;
  RevisionHeight : Z
}.

Module clienttypes.
(** Only the presence of the response is examined. *)
Record QueryClientStateResponse : Type := {
  ClientState : string
}.
End clienttypes.

Module conntypes.
Inductive State : Type := UNINITIALIZED | INIT | TRYOPEN | OPEN.

Definition State_eqb (a b : State) : bool :=
  match a, b with
  | UNINITIALIZED, UNINITIALIZED | INIT, INIT
  | TRYOPEN, TRYOPEN | OPEN, OPEN => true
  | _, _ => false
  end.

Record ConnectionEnd : Type := {
  State_ : State
}.

(** ibc-go declares the field as [Connection *ConnectionEnd]. *)
Record QueryConnectionResponse : Type := {
  Connection : option ConnectionEnd
}.
End conntypes.

Module chantypes.
Inductive State : Type :=
  UNINITIALIZED | INIT | TRYOPEN | OPEN | CLOSED | FLUSHING | FLUSHCOMPLETE.

Definition State_eqb (a b : State) : bool :=
  match a, b with
  | UNINITIALIZED, UNINITIALIZED | INIT, INIT | TRYOPEN, TRYOPEN
  | OPEN, OPEN | CLOSED, CLOSED | FLUSHING, FLUSHING
  | FLUSHCOMPLETE, FLUSHCOMPLETE => true
  | _, _ => false
  end.

Record Channel : Type := {
  State_ : State
}.

(** ibc-go declares the field as [Channel *Channel]. *)
Record QueryChannelResponse : Type := {
  Channel_ : option Channel
}.
End chantypes.

(** *** The chain interface *)

Inductive Context : Type := context_TODO.

(** Modelled from the spec: [QueryContext] and [NewQueryContext] are
    declared in another file of the package; a query context binds a height
    to a cancellable scope, and is made from a base scope and a height. *)
Record QueryContext : Type := {
  qc_Context : Context;
  qc_Height : option Height
}.

Definition NewQueryContext (ctx : Context) (height : option Height) : QueryContext :=
  {| qc_Context := ctx; qc_Height := height |}.

(** Modelled from the spec: [ProvableChain] is declared in another file of
    the package; the check uses these four methods of it. Each returns a
    Go pair of a result and an error. *)
Record ProvableChain : Type := {
  LatestHeight : option Height * error;
  QueryClientState :
    QueryContext -> option clienttypes.QueryClientStateResponse * error;
  QueryConnection :
    QueryContext -> option conntypes.QueryConnectionResponse * error;
  QueryChannel :
    QueryContext -> option chantypes.QueryChannelResponse * error
}.

(** *** Goroutines, the shared [err] variable and the [errgroup.Group] *)

Inductive side : Type := side_src | side_dst.

(** A call made on a chain. *)
Inductive event : Type :=
| ev_LatestHeight (s : side)
| ev_QueryClientState (s : side) (q : QueryContext)
| ev_QueryConnection (s : side) (q : QueryContext)
| ev_QueryChannel (s : side) (q : QueryContext).

(** Each of the two closures of a stage does two things to the variables it
    shares with the other: it assigns the call's results ([x, err = call()])
    and it reads [err] back to return it to the group ([return err]). The
    check only tests errors against [nil], so which of two errors the group
    keeps is of no consequence. *)
Inductive step : Type :=
| assigns (s : side)
| returns (s : side).

(** The six orders in which the steps of the two goroutines can happen. *)
Inductive interleaving : Type :=
| src_then_dst
| dst_then_src
| src_dst_assign_src_dst_return
| src_dst_assign_dst_src_return
| dst_src_assign_src_dst_return
| dst_src_assign_dst_src_return.

Definition steps (i : interleaving) : list step :=
  match i with
  | src_then_dst =>
      [assigns side_src; returns side_src; assigns side_dst; returns side_dst]
  | dst_then_src =>
      [assigns side_dst; returns side_dst; assigns side_src; returns side_src]
  | src_dst_assign_src_dst_return =>
      [assigns side_src; assigns side_dst; returns side_src; returns side_dst]
  | src_dst_assign_dst_src_return =>
      [assigns side_src; assigns side_dst; returns side_dst; returns side_src]
  | dst_src_assign_src_dst_return =>
      [assigns side_dst; assigns side_src; returns side_src; returns side_dst]
  | dst_src_assign_dst_src_return =>
      [assigns side_dst; assigns side_src; returns side_dst; returns side_src]
  end.

(** The goroutines of a stage run one after the other. *)
Definition sequential (i : interleaving) : bool :=
  match i with
  | src_then_dst | dst_then_src => true
  | _ => false
  end.

Record schedule : Type := {
  stage1 : interleaving;
  stage2 : interleaving;
  stage3 : interleaving;
  stage4 : interleaving
}.

(** [errgroup.Group]: the first non-nil error returned by a function passed
    to [Go] is kept (a [sync.Once]), also across calls of [Wait]. *)
Record Group : Type := {
  group_err : error
}.

Definition Group_done (g : Group) (e : error) : Group :=
  match e, group_err g with
  | Some _, None => {| group_err := e |}
  | _, _ => g
  end.

Definition Group_Wait (g : Group) : error := group_err g.

(** What the goroutines and the function share. *)
Record shared : Type := {
  err : error;
  eg : Group;
  calls : list event
}.

Definition exec (e_src e_dst : error) (c_src c_dst : event)
    (st : shared) (s : step) : shared :=
  match s with
  | assigns side_src =>
      {| err := e_src; eg := eg st; calls := calls st ++ [c_src] |}
  | assigns side_dst =>
      {| err := e_dst; eg := eg st; calls := calls st ++ [c_dst] |}
  | returns _ =>
      {| err := err st; eg := Group_done (eg st) (err st); calls := calls st |}
  end.

(** Both closures of a stage started with [eg.Go], until both are done. *)
Definition go_both (i : interleaving) (e_src e_dst : error)
    (c_src c_dst : event) (st : shared) : shared :=
  fold_left (exec e_src e_dst c_src c_dst) (steps i) st.

(** The calls of a stage, in the order in which they are made. *)
Definition calls_of (i : interleaving) (c_src c_dst : event) : list event :=
  match i with
  | src_then_dst | src_dst_assign_src_dst_return | src_dst_assign_dst_src_return =>
      [c_src; c_dst]
  | _ => [c_dst; c_src]
  end.

(** [err = eg.Wait()] *)
Definition wait_err (st : shared) : shared :=
  {| err := Group_Wait (eg st); eg := eg st; calls := calls st |}.

(** *** Conditions that dereference a response *)

Definition conn_not_open (r : option conntypes.QueryConnectionResponse)
    : outcome bool :=
  match r with
  | None => Panics
  | Some resp =>
      match conntypes.Connection resp with
      | None => Panics
      | Some c =>
          Returns (negb (conntypes.State_eqb (conntypes.State_ c) conntypes.OPEN))
      end
  end.

Definition chan_not_open (r : option chantypes.QueryChannelResponse)
    : outcome bool :=
  match r with
  | None => Panics
  | Some resp =>
      match chantypes.Channel_ resp with
      | None => Panics
      | Some c =>
          Returns (negb (chantypes.State_eqb (chantypes.State_ c) chantypes.OPEN))
      end
  end.

(** Go's [a || b]: [b] is evaluated only when [a] is false. *)
Definition or_else (a b : outcome bool) : outcome bool :=
  match a with
  | Returns true => Returns true
  | Returns false => b
  | Panics => Panics
  end.

Definition set_Chains (o : PathWithStatus) : PathWithStatus :=
  {| pws_Path := pws_Path o;
     Status := {| Chains := true; Clients := Clients (Status o);
                  Connection := Connection (Status o);
                  Channel := Channel (Status o) |} |}.

Definition set_Clients (o : PathWithStatus) : PathWithStatus :=
  {| pws_Path := pws_Path o;
     Status := {| Chains := Chains (Status o); Clients := true;
                  Connection := Connection (Status o);
                  Channel := Channel (Status o) |} |}.

Definition set_Connection (o : PathWithStatus) : PathWithStatus :=
  {| pws_Path := pws_Path o;
     Status := {| Chains := Chains (Status o); Clients := Clients (Status o);
                  Connection := true;
                  Channel := Channel (Status o) |} |}.

Definition set_Channel (o : PathWithStatus) : PathWithStatus :=
  {| pws_Path := pws_Path o;
     Status := {| Chains := Chains (Status o); Clients := Clients (Status o);
                  Connection := Connection (Status o);
                  Channel := true |} |}.

(** *** [QueryPathStatus]: the result and the calls made on the chains *)

Definition QueryPathStatus (sch : schedule) (p : Path) (src dst : ProvableChain)
    : outcome PathWithStatus * list event :=
  let out := {| pws_Path := p;
                Status := {| Chains := false; Clients := false;
                             Connection := false; Channel := false |} |} in
  let st := {| err := None; eg := {| group_err := None |}; calls := [] |} in
  let '(srch, e_src) := LatestHeight src in
  let '(dsth, e_dst) := LatestHeight dst in
  let st := go_both (stage1 sch) e_src e_dst
              (ev_LatestHeight side_src) (ev_LatestHeight side_dst) st in
  (* [eg.Wait()]: its result is dropped, the shared [err] is tested *)
  if negb (is_nil (err st)) then (Returns out, calls st) else
  let out := set_Chains out in
  let ctx := context_TODO in
  let '(srcCs, e_src) := QueryClientState src (NewQueryContext ctx srch) in
  let '(dstCs, e_dst) := QueryClientState dst (NewQueryContext ctx dsth) in
  let st := go_both (stage2 sch) e_src e_dst
              (ev_QueryClientState side_src (NewQueryContext ctx srch))
              (ev_QueryClientState side_dst (NewQueryContext ctx dsth)) st in
  let st := wait_err st in
  if negb (is_nil (err st)) || is_nil srcCs || is_nil dstCs
  then (Returns out, calls st) else
  let out := set_Clients out in
  let '(srcConn, e_src) := QueryConnection src (NewQueryContext ctx srch) in
  let '(dstConn, e_dst) := QueryConnection dst (NewQueryContext ctx dsth) in
  let st := go_both (stage3 sch) e_src e_dst
              (ev_QueryConnection side_src (NewQueryContext ctx srch))
              (ev_QueryConnection side_dst (NewQueryContext ctx dsth)) st in
  let st := wait_err st in
  match or_else (Returns (negb (is_nil (err st))))
          (or_else (conn_not_open srcConn) (conn_not_open dstConn)) with
  | Panics => (Panics, calls st)
  | Returns true => (Returns out, calls st)
  | Returns false =>
      let out := set_Connection out in
      let '(srcChan, e_src) := QueryChannel src (NewQueryContext ctx srch) in
      let '(dstChan, e_dst) := QueryChannel dst (NewQueryContext ctx dsth) in
      let st := go_both (stage4 sch) e_src e_dst
                  (ev_QueryChannel side_src (NewQueryContext ctx srch))
                  (ev_QueryChannel side_dst (NewQueryContext ctx dsth)) st in
      let st := wait_err st in
      match or_else (Returns (negb (is_nil (err st))))
              (or_else (chan_not_open srcChan) (chan_not_open dstChan)) with
      | Panics => (Panics, calls st)
      | Returns true => (Returns out, calls st)
      | Returns false => (Returns (set_Channel out), calls st)
      end
  end.

(** ** The Ethereum chain: [CallOpts] and [TxOpts] *)

Section Ethereum.

(** The types and functions of go-ethereum that the helpers call.
    [gethcrypto.Sign] and the signer's [Hash] compute a value from their
    arguments; [sign_values] is what [Transaction.WithSignature] computes:
    the content of the signed transaction, or an error for a signature it
    rejects. *)
Context {Address PrivateKey PublicKey Digest Signature Tx : Type}.
Context `{EqDecision Address}.
Variable PublicKey_of : PrivateKey -> PublicKey.
Variable PubkeyToAddress : PublicKey -> Address.
Variable EIP155_Hash : Z -> Tx -> Digest.
Variable Sign : Digest -> PrivateKey -> Signature * error.
Variable sign_values : Z -> Tx -> Signature -> Tx + string.

(** The fields of [Chain] that the helpers read. *)
Record Chain : Type := {
  chainID : Z;
  relayerPrvKey : PrivateKey
}.

(** [gethtypes.NewEIP155Signer(chainID)] *)
Record EIP155Signer : Type := {
  signer_chainId : Z
}.

Definition NewEIP155Signer (id : Z) : EIP155Signer :=
  {| signer_chainId := id |}.

(** Transactions are handled through pointers: [txs] holds the
    transaction objects, [signatures] the calls made to [gethcrypto.Sign]
    so far, latest last. *)
Record world : Type := {
  txs : gmap positive Tx;
  signatures : list (Digest * PrivateKey)
}.

(** [signer.Hash(tx).Bytes()]; a pointer to no object is [nil]. *)
Definition signer_Hash (s : EIP155Signer) (tx : positive) (w : world)
    : outcome Digest :=
  match txs w !! tx with
  | Some t => Returns (EIP155_Hash (signer_chainId s) t)
  | None => Panics
  end.

Definition crypto_Sign (d : Digest) (prv : PrivateKey) (w : world)
    : (Signature * error) * world :=
  (Sign d prv, {| txs := txs w; signatures := signatures w ++ [(d, prv)] |}).

(** [tx.WithSignature(signer, sig)] of go-ethereum returns a new
    transaction object and leaves its receiver as it is. *)
Definition tx_WithSignature (tx : positive) (s : EIP155Signer)
    (sig : Signature) (w : world)
    : outcome ((option positive * error) * world) :=
  match txs w !! tx with
  | None => Panics
  | Some t =>
      match sign_values (signer_chainId s) t sig with
      | inr e => Returns ((None, Some e), w)
      | inl t' =>
          let l := fresh (dom (txs w)) in
          Returns ((Some l, None),
                   {| txs := <[l := t']> (txs w);
                      signatures := signatures w |})
      end
  end.

Record CallOpts : Type := {
  call_From : Address;
  call_Context : Context
}.

Record TransactOpts : Type := {
  From : Address;
  GasLimit : Z;
  Signer :
    Address -> positive -> world -> outcome ((option positive * error) * world)
}.

Definition Chain_CallOpts (chain : Chain) (ctx : Context) : CallOpts :=
  {| call_From := PubkeyToAddress (PublicKey_of (relayerPrvKey chain));
     call_Context := ctx |}.

Definition Chain_TxOpts (chain : Chain) (ctx : Context) : TransactOpts :=
  let signer := NewEIP155Signer (chainID chain) in
  let prv := relayerPrvKey chain in
  let addr := PubkeyToAddress (PublicKey_of prv) in
  {| From := addr;
     GasLimit := 6382056;
     Signer := fun address tx w =>
       if negb (bool_decide (address = addr)) then
         Returns ((None, Some "not authorized to sign this account"), w)
       else
         match signer_Hash signer tx w with
         | Panics => Panics
         | Returns d =>
             let '((signature, err), w) := crypto_Sign d prv w in
             match err with
             | Some e => Returns ((None, Some e), w)
             | None => tx_WithSignature tx signer signature w
             end
         end |}.

End Ethereum.

(** ** The validators of the specification *)

(** Modelled from the spec: [PathEnd.Validate] is declared in another file of
    the package. It fails with [InvalidPathEnd] on an empty [ChainID]; the
    [Order] must be one of the two recognized values; the version is checked
    one level up, by [Path.Validate]. *)
Definition PathEnd_Validate (pe : PathEnd) : error :=
  if String.eqb (ChainID pe) "" then Some "InvalidPathEnd"
  else if String.eqb (Order pe) "ORDERED" || String.eqb (Order pe) "UNORDERED"
       then None
       else Some "InvalidPathEnd".

(** Modelled from the spec: [Path.ValidateStrategy] is declared in another
    file of the package. It requires a non-empty strategy type. *)
Definition Path_ValidateStrategy (p : Path) : error :=
  if String.eqb (Type_ (Strategy p)) "" then Some "ValidationError" else None.

(** ** Sample values *)

Definition reader0 : Reader := {| draws := fun n => Z.of_nat (7 * n + 3); pos := 0 |}.

Definition end_ibc0 : PathEnd :=
  {| ChainID := "ibc0"; ClientID := "tendermintaa"; ConnectionID := "connectionaa";
     ChannelID := "channelaa"; PortID := "transfer"; Order := "UNORDERED";
     Version := "ics20-1" |}.

Definition end_ibc1 : PathEnd :=
  {| ChainID := "ibc1"; ClientID := "tendermintbb"; ConnectionID := "connectionbb";
     ChannelID := "channelbb"; PortID := "transfer"; Order := "UNORDERED";
     Version := "ics20-1" |}.

Definition naive : StrategyCfg := {| Type_ := "naive" |}.

Definition path01 : Path := {| Src := end_ibc0; Dst := end_ibc1; Strategy := naive |}.

(** As [path01], but the destination names no version. *)
Definition path01_dst_unversioned : Path :=
  {| Src := end_ibc0;
     Dst := {| ChainID := "ibc1"; ClientID := "tendermintbb";
               ConnectionID := "connectionbb"; ChannelID := "channelbb";
               PortID := "transfer"; Order := "UNORDERED"; Version := "" |};
     Strategy := naive |}.

(** As [path01], but the source names no version. *)
Definition path01_src_unversioned : Path :=
  {| Src := {| ChainID := "ibc0"; ClientID := "tendermintaa";
               ConnectionID := "connectionaa"; ChannelID := "channelaa";
               PortID := "transfer"; Order := "UNORDERED"; Version := "" |};
     Dst := end_ibc1;
     Strategy := naive |}.

Definition registry01 : gmap string Path := {[ "demo" := path01 ]}.

Definition height5 : Height := {| RevisionNumber := 0; RevisionHeight := 5 |}.
Definition height9 : Height := {| RevisionNumber := 1; RevisionHeight := 9 |}.

Definition client_resp : option clienttypes.QueryClientStateResponse :=
  Some {| clienttypes.ClientState := "07-tendermint" |}.

Definition conn_resp (s : conntypes.State) : option conntypes.QueryConnectionResponse :=
  Some {| conntypes.Connection := Some {| conntypes.State_ := s |} |}.

Definition chan_resp (s : chantypes.State) : option chantypes.QueryChannelResponse :=
  Some {| chantypes.Channel_ := Some {| chantypes.State_ := s |} |}.

(** A chain at height [h] on which client, connection and channel exist and
    are open. *)
Definition chain_open (h : Height) : ProvableChain :=
  {| LatestHeight := (Some h, None);
     QueryClientState := fun _ => (client_resp, None);
     QueryConnection := fun _ => (conn_resp conntypes.OPEN, None);
     QueryChannel := fun _ => (chan_resp chantypes.OPEN, None) |}.

(** A chain whose [LatestHeight] fails; its other queries answer. *)
Definition chain_no_height : ProvableChain :=
  {| LatestHeight := (None, Some "latest height: connection refused");
     QueryClientState := fun _ => (client_resp, None);
     QueryConnection := fun _ => (conn_resp conntypes.OPEN, None);
     QueryChannel := fun _ => (chan_resp chantypes.OPEN, None) |}.

(** A chain that answers the client-state query with no response and no
    error. *)
Definition chain_no_client (h : Height) : ProvableChain :=
  {| LatestHeight := (Some h, None);
     QueryClientState := fun _ => (None, None);
     QueryConnection := fun _ => (conn_resp conntypes.OPEN, None);
     QueryChannel := fun _ => (chan_resp chantypes.OPEN, None) |}.

(** A chain whose channel is closed. *)
Definition chain_closed (h : Height) : ProvableChain :=
  {| LatestHeight := (Some h, None);
     QueryClientState := fun _ => (client_resp, None);
     QueryConnection := fun _ => (conn_resp conntypes.OPEN, None);
     QueryChannel := fun _ => (chan_resp chantypes.CLOSED, None) |}.

(** A chain that answers the connection query with a response whose
    [Connection] field is nil, and no error. *)
Definition chain_nil_Connection (h : Height) : ProvableChain :=
  {| LatestHeight := (Some h, None);
     QueryClientState := fun _ => (client_resp, None);
     QueryConnection := fun _ => (Some {| conntypes.Connection := None |}, None);
     QueryChannel := fun _ => (chan_resp chantypes.OPEN, None) |}.

(** A chain that answers the connection query with no response and no
    error. *)
Definition chain_nil_response (h : Height) : ProvableChain :=
  {| LatestHeight := (Some h, None);
     QueryClientState := fun _ => (client_resp, None);
     QueryConnection := fun _ => (None, None);
     QueryChannel := fun _ => (chan_resp chantypes.OPEN, None) |}.

(** A chain whose connection query fails. *)
Definition chain_conn_error (h : Height) : ProvableChain :=
  {| LatestHeight := (Some h, None);
     QueryClientState := fun _ => (client_resp, None);
     QueryConnection := fun _ => (None, Some "connection not found");
     QueryChannel := fun _ => (chan_resp chantypes.OPEN, None) |}.

(** In every stage the source's goroutine is done before the destination's
    starts. *)
Definition in_order : schedule :=
  {| stage1 := src_then_dst; stage2 := src_then_dst;
     stage3 := src_then_dst; stage4 := src_then_dst |}.

(** In every stage both goroutines assign before either returns. *)
Definition overlapped : schedule :=
  {| stage1 := src_dst_assign_src_dst_return;
     stage2 := src_dst_assign_src_dst_return;
     stage3 := src_dst_assign_src_dst_return;
     stage4 := src_dst_assign_src_dst_return |}.

(** *** Properties of a status and of the calls of a check *)

(** A later flag is set only if the earlier ones are. *)
Definition staged (s : PathStatus) : Prop :=
  (Clients s = true -> Chains s = true)
  /\ (Connection s = true -> Clients s = true)
  /\ (Channel s = true -> Connection s = true).






(** [QueryConnection] and [QueryChannel] never return a nil response
    together with a nil error. *)
Definition responses_present (c : ProvableChain) : Prop :=
  forall q, QueryConnection c q <> (None, None) /\ QueryChannel c q <> (None, None).

(** Whenever [QueryConnection] or [QueryChannel] returns a nil error, the
    response and its [Connection] or [Channel] field are not nil. *)
Definition states_present (c : ProvableChain) : Prop :=
  forall q,
    (forall r, QueryConnection c q = (r, None) ->
               exists resp ce, r = Some resp /\ conntypes.Connection resp = Some ce)
    /\ (forall r, QueryChannel c q = (r, None) ->
                  exists resp ch, r = Some resp /\ chantypes.Channel_ resp = Some ch).

(** The status with the first [n] flags set. *)
Definition reached (n : nat) : PathStatus :=
  {| Chains := Nat.leb 1 n; Clients := Nat.leb 2 n;
     Connection := Nat.leb 3 n; Channel := Nat.leb 4 n |}.

(** ** A small instance of the Ethereum primitives *)

Record toy_tx : Type := {
  payload : Z;
  signed_with : option Z
}.

Definition toy_PublicKey_of (prv : Z) : Z := (2 * prv + 1)%Z.
Definition toy_PubkeyToAddress (pub : Z) : Z := (pub mod 1000)%Z.
Definition toy_Hash (id : Z) (t : toy_tx) : Z := (31 * payload t + id)%Z.
Definition toy_Sign (d prv : Z) : Z * error := ((d + prv)%Z, None).
Definition toy_sign_values (id : Z) (t : toy_tx) (sig : Z) : toy_tx + string :=
  inl {| payload := payload t; signed_with := Some sig |}.

Definition toy_chain : Chain := {| chainID := 1337; relayerPrvKey := 42%Z |}.

Definition toy_world : world (Digest := Z) (PrivateKey := Z) (Tx := toy_tx) :=
  {| txs := {[ 1%positive := {| payload := 7; signed_with := None |} ]};
     signatures := [] |}.

Definition toy_TxOpts : TransactOpts :=
  Chain_TxOpts toy_PublicKey_of toy_PubkeyToAddress toy_Hash toy_Sign
    toy_sign_values toy_chain context_TODO.

(** ** The rest of [core/path.go] *)

(** [MustGet] panics where [Get] returns an error. *)
Definition Paths_MustGet (p : gmap string Path) (name : string) : outcome (option Path) :=
  let '(pth, err) := Paths_Get p name in
  match err with
  | Some _ => Panics
  | None => Returns pth
  end.

(** *** The identifier generators. Each assigns to one field through the
    path's pointer; the path after the call is returned with the reader. *)

Definition set_ClientID (pe : PathEnd) (id : string) : PathEnd :=
  {| ChainID := ChainID pe; ClientID := id; ConnectionID := ConnectionID pe;
     ChannelID := ChannelID pe; PortID := PortID pe; Order := Order pe;
     Version := Version pe |}.

Definition set_ConnectionID (pe : PathEnd) (id : string) : PathEnd :=
  {| ChainID := ChainID pe; ClientID := ClientID pe; ConnectionID := id;
     ChannelID := ChannelID pe; PortID := PortID pe; Order := Order pe;
     Version := Version pe |}.

Definition set_ChannelID (pe : PathEnd) (id : string) : PathEnd :=
  {| ChainID := ChainID pe; ClientID := ClientID pe;
     ConnectionID := ConnectionID pe; ChannelID := id; PortID := PortID pe;
     Order := Order pe; Version := Version pe |}.

Definition set_Src (p : Path) (pe : PathEnd) : Path :=
  {| Src := pe; Dst := Dst p; Strategy := Strategy p |}.

Definition set_Dst (p : Path) (pe : PathEnd) : Path :=
  {| Src := Src p; Dst := pe; Strategy := Strategy p |}.

Definition Path_GenSrcClientID (p : Path) (r : Reader) : Path * Reader :=
  let '(id, r) := RandLowerCaseLetterString 10 r in
  (set_Src p (set_ClientID (Src p) id), r).

Definition Path_GenDstClientID (p : Path) (r : Reader) : Path * Reader :=
  let '(id, r) := RandLowerCaseLetterString 10 r in
  (set_Dst p (set_ClientID (Dst p) id), r).

Definition Path_GenSrcConnID (p : Path) (r : Reader) : Path * Reader :=
  let '(id, r) := RandLowerCaseLetterString 10 r in
  (set_Src p (set_ConnectionID (Src p) id), r).

Definition Path_GenDstConnID (p : Path) (r : Reader) : Path * Reader :=
  let '(id, r) := RandLowerCaseLetterString 10 r in
  (set_Dst p (set_ConnectionID (Dst p) id), r).

Definition Path_GenSrcChanID (p : Path) (r : Reader) : Path * Reader :=
  let '(id, r) := RandLowerCaseLetterString 10 r in
  (set_Src p (set_ChannelID (Src p) id), r).

Definition Path_GenDstChanID (p : Path) (r : Reader) : Path * Reader :=
  let '(id, r) := RandLowerCaseLetterString 10 r in
  (set_Dst p (set_ChannelID (Dst p) id), r).

(** *** The status report *)

Definition check : string := "✔".
Definition xIcon : string := "✘".

Definition checkmark (status : bool) : string :=
  if status then check else xIcon.

(** A line break and a double quote of the format string. *)
Definition nl : string := String (ascii_of_nat 10) "".
Definition dq : string := String (ascii_of_nat 34) "".

(** The four lines of the report that [fmt.Sprintf] fills from the status. *)
Definition status_lines (s : PathStatus) : string :=
  "    Chains:       " +:+ checkmark (Chains s) +:+ nl
  +:+ "    Clients:      " +:+ checkmark (Clients s) +:+ nl
  +:+ "    Connection:   " +:+ checkmark (Connection s) +:+ nl
  +:+ "    Channel:      " +:+ checkmark (Channel s).

(** The lines of the report that are filled from the name and the path. *)
Definition path_lines (name : string) (pth : Path) : string :=
  "Path " +:+ dq +:+ name +:+ dq +:+ " strategy(" +:+ Type_ (Strategy pth) +:+ "):" +:+ nl
  +:+ "  SRC(" +:+ ChainID (Src pth) +:+ ")" +:+ nl
  +:+ "    ClientID:     " +:+ ClientID (Src pth) +:+ nl
  +:+ "    ConnectionID: " +:+ ConnectionID (Src pth) +:+ nl
  +:+ "    ChannelID:    " +:+ ChannelID (Src pth) +:+ nl
  +:+ "    PortID:       " +:+ PortID (Src pth) +:+ nl
  +:+ "  DST(" +:+ ChainID (Dst pth) +:+ ")" +:+ nl
  +:+ "    ClientID:     " +:+ ClientID (Dst pth) +:+ nl
  +:+ "    ConnectionID: " +:+ ConnectionID (Dst pth) +:+ nl
  +:+ "    ChannelID:    " +:+ ChannelID (Dst pth) +:+ nl
  +:+ "    PortID:       " +:+ PortID (Dst pth) +:+ nl
  +:+ "  STATUS:" +:+ nl.

Definition PathWithStatus_PrintString (ps : PathWithStatus) (name : string) : string :=
  path_lines name (pws_Path ps) +:+ status_lines (Status ps).

(** *** Predicates on identifiers, on the calls and on the responses *)

Definition lowercase (c : ascii) : bool :=
  Nat.leb 97 (nat_of_ascii c) && Nat.leb (nat_of_ascii c) 122.

Fixpoint all_lowercase (s : string) : bool :=
  match s with
  | "" => true
  | String c s' => lowercase c && all_lowercase s'
  end.

(** An identifier as the generators make it: ten lowercase letters. *)
Definition generated (id : string) : Prop :=
  String.length id = 10 /\ all_lowercase id = true.

(** The six identifiers of a path, and everything else in it. *)
Definition identifiers (p : Path) : list string :=
  [ClientID (Src p); ConnectionID (Src p); ChannelID (Src p);
   ClientID (Dst p); ConnectionID (Dst p); ChannelID (Dst p)].

Definition configuration (p : Path) : list string :=
  [ChainID (Src p); PortID (Src p); Order (Src p); Version (Src p);
   ChainID (Dst p); PortID (Dst p); Order (Dst p); Version (Dst p);
   Type_ (Strategy p)].

(** [p'] is [p] with its [i]-th identifier generated anew. *)
Definition regenerated (i : nat) (p p' : Path) : Prop :=
  configuration p' = configuration p
  /\ (forall j, j <> i -> identifiers p' !! j = identifiers p !! j)
  /\ exists id, identifiers p' !! i = Some id /\ generated id.





(** The error that the shared [err] holds when both goroutines of a stage
    are done: that of the later assignment. *)
Definition last_assigned (i : interleaving) (e_src e_dst : error) : error :=
  match i with
  | src_then_dst | src_dst_assign_src_dst_return | src_dst_assign_dst_src_return =>
      e_dst
  | _ => e_src
  end.

Definition connection_open (r : option conntypes.QueryConnectionResponse) : Prop :=
  exists resp ce, r = Some resp /\ conntypes.Connection resp = Some ce
                  /\ conntypes.State_ ce = conntypes.OPEN.

Definition channel_open (r : option chantypes.QueryChannelResponse) : Prop :=
  exists resp ch, r = Some resp /\ chantypes.Channel_ resp = Some ch
                  /\ chantypes.State_ ch = chantypes.OPEN.



(** ** [parseChainID] of the Ethereum chain *)

Definition digit_of (c : ascii) : option Z :=
  let n := nat_of_ascii c in
  if Nat.leb 48 n && Nat.leb n 57 then Some (Z.of_nat (n - 48)) else None.

(** The digits of [s] in base 10, read onto [acc]; [None] at a character
    that is no digit. *)
Fixpoint scan_digits (acc : Z) (s : string) : option Z :=
  match s with
  | "" => Some acc
  | String c s' =>
      match digit_of c with
      | Some d => scan_digits (10 * acc + d) s'
      | None => None
      end
  end.

(** [new(big.Int).SetString(s, 10)] of math/big: an optional sign, then one
    or more decimal digits, and nothing else; the whole string must be
    read. *)
Definition big_SetString_10 (s : string) : option Z :=
  let '(neg, digits) :=
    match s with
    | String "+"%char rest => (false, rest)
    | String "-"%char rest => (true, rest)
    | _ => (false, s)
    end in
  match digits with
  | "" => None
  | _ =>
      match scan_digits 0 digits with
      | Some v => Some (if neg then (- v)%Z else v)
      | None => None
      end
  end.

Definition parseChainID (idStr : string) : option Z * error :=
  match big_SetString_10 idStr with
  | None => (None, Some ("the chainID is invalid format: " +:+ idStr))
  | Some n => (Some n, None)
  end.

(** The decimal digits [ds], most significant first, as a string, and the
    number they denote. *)
Definition digit_char (d : nat) : ascii := ascii_of_nat (48 + d).

Fixpoint digits_string (ds : list nat) : string :=
  match ds with
  | [] => ""
  | d :: ds' => String (digit_char d) (digits_string ds')
  end.

Definition digits_value (ds : list nat) : Z :=
  fold_left (fun acc d => (10 * acc + Z.of_nat d)%Z) ds 0%Z.

(** A chain whose channel query fails. *)
Definition chain_chan_error (h : Height) : ProvableChain :=
  {| LatestHeight := (Some h, None);
     QueryClientState := fun _ => (client_resp, None);
     QueryConnection := fun _ => (conn_resp conntypes.OPEN, None);
     QueryChannel := fun _ => (None, Some "channel not found") |}.

(** A chain whose client-state query fails, with a response all the same. *)
Definition chain_client_error (h : Height) : ProvableChain :=
  {| LatestHeight := (Some h, None);
     QueryClientState := fun _ => (client_resp, Some "client state: timeout");
     QueryConnection := fun _ => (conn_resp conntypes.OPEN, None);
     QueryChannel := fun _ => (chan_resp chantypes.OPEN, None) |}.

(** * Properties *)

(** ** [Path.Validate] *)

Section ValidateFacts.

Variable pev : PathEnd -> error.
Variable vs : Path -> error.

Lemma Path_Validate_ok (p : Path) :
  Path_Validate pev vs p = None <->
  pev (Src p) = None /\ Version (Src p) <> "" /\ pev (Dst p) = None
  /\ vs p = None /\ Order (Src p) = Order (Dst p).
Proof.
  unfold Path_Validate.
  destruct (pev (Src p)) as [e|]; [intuition discriminate|].
  destruct (String.eqb_spec (Version (Src p)) ""); [intuition discriminate|].
  destruct (pev (Dst p)) as [e|]; [intuition discriminate|].
  destruct (vs p) as [e|]; [intuition discriminate|].
  destruct (String.eqb_spec (Order (Src p)) (Order (Dst p))); simpl;
    intuition discriminate.
Qed.

Lemma Path_Validate_mismatch (p : Path) :
  pev (Src p) = None -> Version (Src p) <> "" -> pev (Dst p) = None ->
  vs p = None -> Order (Src p) <> Order (Dst p) ->
  Path_Validate pev vs p = Some (order_mismatch (Order (Src p)) (Order (Dst p))).
Proof.
  intros Hs Hv Hd Hst Ho. unfold Path_Validate. rewrite Hs, Hd, Hst.
  destruct (String.eqb_spec (Version (Src p)) ""); [contradiction|].
  destruct (String.eqb_spec (Order (Src p)) (Order (Dst p))); [contradiction|].
  reflexivity.
Qed.

(** A source without a version is refused whatever the validators say of the
    rest, unless the source's own validation fails first. *)
Lemma Path_Validate_src_version (p : Path) :
  Version (Src p) = "" -> Path_Validate pev vs p <> None.
Proof.
  intros Hv Hok. apply Path_Validate_ok in Hok. tauto.
Qed.

End ValidateFacts.

Lemma order_mismatch_reports (a b : string) :
  exists pre mid post, order_mismatch a b = pre +:+ a +:+ mid +:+ b +:+ post.
Proof.
  exists "both sides must have same order ('ORDERED' or 'UNORDERED'), got src(",
         ") and dst(", ")".
  reflexivity.
Qed.

(** C2, as the code has it: for any validators of the ends and of the
    strategy, [Path.Validate] succeeds exactly when both ends are valid, the
    source's version is not empty, the strategy is valid and both orders are
    equal -- the destination's version is not examined. When those earlier
    checks pass and the orders differ, the error is the order mismatch, whose
    text holds both observed orders. *)
Theorem Path_Validate_spec (pev : PathEnd -> error) (vs : Path -> error) (p : Path) :
  (Path_Validate pev vs p = None <->
     pev (Src p) = None /\ Version (Src p) <> "" /\ pev (Dst p) = None
     /\ vs p = None /\ Order (Src p) = Order (Dst p))
  /\ (pev (Src p) = None /\ Version (Src p) <> "" /\ pev (Dst p) = None
      /\ vs p = None /\ Order (Src p) <> Order (Dst p) ->
      Path_Validate pev vs p
        = Some (order_mismatch (Order (Src p)) (Order (Dst p)))
      /\ exists pre mid post,
           order_mismatch (Order (Src p)) (Order (Dst p))
             = pre +:+ Order (Src p) +:+ mid +:+ Order (Dst p) +:+ post).
Proof.
  split.
  - apply Path_Validate_ok.
  - intros (Hs & Hv & Hd & Hst & Ho). split.
    + now apply Path_Validate_mismatch.
    + apply order_mismatch_reports.
Qed.

(** C2, as stated, fails: a path whose destination has an empty version, and
    which is otherwise in order, passes [Validate]. *)
Lemma Path_Validate_accepts_empty_Dst_Version :
  PathEnd_Validate (Src path01_dst_unversioned) = None
  /\ PathEnd_Validate (Dst path01_dst_unversioned) = None
  /\ Version (Dst path01_dst_unversioned) = ""
  /\ Path_Validate PathEnd_Validate Path_ValidateStrategy path01_dst_unversioned
     = None.
Proof. repeat split. Qed.

(** ** [GenPath] *)

Lemma GenPath_fields (a b c d order version : string) (r : Reader) :
  let p := fst (GenPath a b c d order version r) in
  ChainID (Src p) = a /\ ChainID (Dst p) = b
  /\ PortID (Src p) = c /\ PortID (Dst p) = d
  /\ Order (Src p) = order /\ Order (Dst p) = order
  /\ Version (Src p) = version /\ Version (Dst p) = version
  /\ Strategy p = {| Type_ := "naive" |}.
Proof.
  unfold GenPath.
  repeat match goal with
         | |- context [RandLowerCaseLetterString ?n ?x] =>
             destruct (RandLowerCaseLetterString n x)
         end.
  simpl. repeat split.
Qed.

(** For any validators: the version and order checks of [Validate] depend
    on the arguments of [GenPath] only through the version, since both sides
    get the same order. *)
Lemma GenPath_Validate_iff (pev : PathEnd -> error) (vs : Path -> error)
    (a b c d order version : string) (r : Reader) :
  Path_Validate pev vs (fst (GenPath a b c d order version r)) = None <->
  version <> ""
  /\ pev (Src (fst (GenPath a b c d order version r))) = None
  /\ pev (Dst (fst (GenPath a b c d order version r))) = None
  /\ vs (fst (GenPath a b c d order version r)) = None.
Proof.
  destruct (GenPath_fields a b c d order version r)
    as (_ & _ & _ & _ & Hos & Hod & Hvs & _).
  rewrite Path_Validate_ok, Hvs, Hos, Hod. tauto.
Qed.

Lemma PathEnd_Validate_ok (pe : PathEnd) :
  PathEnd_Validate pe = None <->
  ChainID pe <> "" /\ (Order pe = "ORDERED" \/ Order pe = "UNORDERED").
Proof.
  unfold PathEnd_Validate.
  destruct (String.eqb_spec (ChainID pe) ""); [intuition discriminate|].
  destruct (String.eqb_spec (Order pe) "ORDERED");
    destruct (String.eqb_spec (Order pe) "UNORDERED"); cbn;
    intuition discriminate.
Qed.

(** C8, as the code has it, with the validators of ends and of strategies
    as the specification describes them: the path of [GenPath] passes
    [Validate] exactly when the version is not empty, both chain identifiers
    are not empty and the order is one of the two recognized values. The
    port identifiers and the draws of the reader play no part, and the
    strategy ["naive"] that [GenPath] sets is always accepted. *)
Theorem GenPath_Validate (a b c d order version : string) (r : Reader) :
  Path_Validate PathEnd_Validate Path_ValidateStrategy
    (fst (GenPath a b c d order version r)) = None <->
  version <> "" /\ a <> "" /\ b <> ""
  /\ (order = "ORDERED" \/ order = "UNORDERED").
Proof.
  rewrite GenPath_Validate_iff, !PathEnd_Validate_ok.
  destruct (GenPath_fields a b c d order version r)
    as (Ha & Hb & _ & _ & Hos & Hod & _ & _ & Hst).
  rewrite Ha, Hb, Hos, Hod. unfold Path_ValidateStrategy. rewrite Hst. cbn.
  tauto.
Qed.

Lemma GenPath_Validate_witness :
  Path_Validate PathEnd_Validate Path_ValidateStrategy
    (fst (GenPath "ibc0" "ibc1" "transfer" "transfer" "ORDERED" "ics20-1" reader0))
  = None.
Proof.
  apply (proj2 (GenPath_Validate "ibc0" "ibc1" "transfer" "transfer"
                  "ORDERED" "ics20-1" reader0)).
  split; [discriminate|]. split; [discriminate|]. split; [discriminate|].
  left. reflexivity.
Defined.

(** C8, as stated, fails: the generated path is refused for an empty
    version, for an empty chain identifier, and for an order that is not one
    of the two recognized values. *)
Lemma GenPath_refused :
  Path_Validate PathEnd_Validate Path_ValidateStrategy
    (fst (GenPath "ibc0" "ibc1" "transfer" "transfer" "ORDERED" "" reader0))
  = Some "source must specify a version"
  /\ Path_Validate PathEnd_Validate Path_ValidateStrategy
       (fst (GenPath "ibc0" "" "transfer" "transfer" "ORDERED" "ics20-1" reader0))
     = Some "InvalidPathEnd"
  /\ Path_Validate PathEnd_Validate Path_ValidateStrategy
       (fst (GenPath "ibc0" "ibc1" "transfer" "transfer" "ordered" "ics20-1" reader0))
     = Some "InvalidPathEnd".
Proof. repeat split; vm_compute; reflexivity. Qed.

(** ** [Path.End] *)

(** C9: when the destination's chain identifier is [c], [End] returns the
    destination's pointer, also when the source carries the same identifier;
    it returns the source's pointer when only the source matches, and a new
    zero [PathEnd] exactly when neither side matches. *)
Theorem Path_End_spec (p : Path) (c : string) :
  (ChainID (Dst p) = c -> Path_End p c = ref_Dst /\ load p (Path_End p c) = Dst p)
  /\ (ChainID (Dst p) <> c -> ChainID (Src p) = c -> Path_End p c = ref_Src)
  /\ (Path_End p c = ref_new zero_PathEnd <->
      ChainID (Dst p) <> c /\ ChainID (Src p) <> c).
Proof.
  unfold Path_End.
  destruct (String.eqb_spec (ChainID (Dst p)) c) as [Hd|Hd];
    destruct (String.eqb_spec (ChainID (Src p)) c) as [Hs|Hs];
    repeat split; intros; try tauto; try discriminate; try reflexivity;
    intuition discriminate.
Qed.

(** ** The registry: [Add] and [AddForce] *)

Section RegistryFacts.

Variable pev : PathEnd -> error.
Variable vs : Path -> error.

Lemma Paths_Add_invalid (p : gmap string Path) (name : string) (path : Path) (e : string) :
  Path_Validate pev vs path = Some e ->
  Paths_Add pev vs p name path = (Some e, p).
Proof. intros Hv. unfold Paths_Add. now rewrite Hv. Qed.

Lemma Paths_AddForce_invalid (p : gmap string Path) (name : string) (path : Path) (e : string) :
  Path_Validate pev vs path = Some e ->
  Paths_AddForce pev vs p name path = (Some e, p).
Proof. intros Hv. unfold Paths_AddForce. now rewrite Hv. Qed.

Lemma Paths_Add_duplicate (p : gmap string Path) (name : string) (path old : Path) :
  Path_Validate pev vs path = None -> p !! name = Some old ->
  Paths_Add pev vs p name path
  = (Some ("path with name " +:+ name +:+ " already exists"), p).
Proof. intros Hv Hl. unfold Paths_Add. now rewrite Hv, Hl. Qed.

Lemma Paths_Add_fresh (p : gmap string Path) (name : string) (path : Path) :
  Path_Validate pev vs path = None -> p !! name = None ->
  Paths_Add pev vs p name path = (None, <[name := path]> p).
Proof. intros Hv Hl. unfold Paths_Add. now rewrite Hv, Hl. Qed.

Lemma Paths_AddForce_valid (p : gmap string Path) (name : string) (path : Path) :
  Path_Validate pev vs path = None ->
  Paths_AddForce pev vs p name path = (None, <[name := path]> p).
Proof. intros Hv. unfold Paths_AddForce. now rewrite Hv. Qed.

End RegistryFacts.

(** C6, as the code has it: validation comes first. An invalid path makes
    [Add] and [AddForce] fail with the validation error and leaves the
    registry as it was, whether the name is present or not. For a path that
    passes [Validate]: [Add] under a name already present fails with the
    duplicate-name error and leaves the registry as it was; [AddForce]
    succeeds, the name then maps to the new path and every other name is as
    before. *)
Theorem Paths_Add_AddForce_spec (pev : PathEnd -> error) (vs : Path -> error)
    (p : gmap string Path) (name : string) (path : Path) :
  (forall e, Path_Validate pev vs path = Some e ->
     Paths_Add pev vs p name path = (Some e, p)
     /\ Paths_AddForce pev vs p name path = (Some e, p))
  /\ (Path_Validate pev vs path = None ->
      (forall old, p !! name = Some old ->
         Paths_Add pev vs p name path
         = (Some ("path with name " +:+ name +:+ " already exists"), p))
      /\ fst (Paths_AddForce pev vs p name path) = None
      /\ snd (Paths_AddForce pev vs p name path) !! name = Some path
      /\ (forall other, other <> name ->
            snd (Paths_AddForce pev vs p name path) !! other = p !! other)).
Proof.
  split.
  - intros e He. split.
    + now apply Paths_Add_invalid.
    + now apply Paths_AddForce_invalid.
  - intros Hv. rewrite (Paths_AddForce_valid pev vs p name path Hv). simpl.
    split; [|split; [|split]].
    + intros old Hold. now apply Paths_Add_duplicate with old.
    + reflexivity.
    + apply lookup_insert_eq.
    + intros other Hne. now apply lookup_insert_ne.
Qed.

(** C6, as stated, fails: under a name already present, [Add] of an invalid
    path fails with the validation error, not with the duplicate-name error,
    and [AddForce] of an invalid path does not succeed. *)
Lemma Paths_Add_duplicate_invalid :
  registry01 !! "demo" = Some path01
  /\ fst (Paths_Add PathEnd_Validate Path_ValidateStrategy
            registry01 "demo" path01_src_unversioned)
     = Some "source must specify a version"
  /\ fst (Paths_AddForce PathEnd_Validate Path_ValidateStrategy
            registry01 "demo" path01_src_unversioned)
     = Some "source must specify a version".
Proof.
  split; [| split].
  - apply lookup_singleton_eq.
  - now rewrite (Paths_Add_invalid _ _ _ _ _ "source must specify a version").
  - now rewrite (Paths_AddForce_invalid _ _ _ _ _ "source must specify a version").
Qed.

(** ** The registry: [PathsFromChains] *)

Lemma collect_lookup (a b : string) (p : gmap string Path) (name : string) (path : Path) :
  collect a b p !! name = Some path <->
  p !! name = Some path /\ between a b path = true.
Proof.
  unfold collect.
  apply (map_fold_weak_ind
           (fun (out m : gmap string Path) =>
              out !! name = Some path <->
              m !! name = Some path /\ between a b path = true)).
  - rewrite lookup_empty. intuition discriminate.
  - intros i x m out Hi IH.
    destruct (decide (i = name)) as [->|Hne].
    + rewrite lookup_insert_eq.
      destruct (between a b x) eqn:Hb.
      * rewrite lookup_insert_eq. split.
        -- intros [= ->]. now split.
        -- now intros [[= ->] _].
      * rewrite IH, Hi. split.
        -- intros [? _]. discriminate.
        -- intros [[= ->] Hb']. congruence.
    + rewrite (lookup_insert_ne m i name x Hne).
      destruct (between a b x); [rewrite lookup_insert_ne by exact Hne|]; exact IH.
Qed.

Lemma between_sym (a b : string) (path : Path) :
  between a b path = between b a path.
Proof. unfold between. apply andb_comm. Qed.

Lemma between_iff (a b : string) (path : Path) :
  between a b path = true <->
  (ChainID (Dst path) = a \/ ChainID (Src path) = a)
  /\ (ChainID (Dst path) = b \/ ChainID (Src path) = b).
Proof.
  unfold between.
  rewrite andb_true_iff, !orb_true_iff, !String.eqb_eq. reflexivity.
Qed.

(** For two different identifiers the condition of the loop says that the
    path's two chains are the two asked for. *)
Lemma between_pair (a b : string) (path : Path) :
  a <> b ->
  between a b path = true <->
  ({[ChainID (Src path); ChainID (Dst path)]} : gset string) = {[a; b]}.
Proof.
  intros Hab. rewrite between_iff. split.
  - intros [[<-|<-] [<-|<-]]; try contradiction; set_solver.
  - intros Heq.
    assert (Ha : a ∈ ({[ChainID (Src path); ChainID (Dst path)]} : gset string))
      by (rewrite Heq; set_solver).
    assert (Hb : b ∈ ({[ChainID (Src path); ChainID (Dst path)]} : gset string))
      by (rewrite Heq; set_solver).
    set_solver.
Qed.

Lemma collect_sym (a b : string) (p : gmap string Path) :
  collect a b p = collect b a p.
Proof.
  apply map_eq. intros name. apply option_eq. intros path.
  rewrite !collect_lookup, between_sym. reflexivity.
Qed.

Lemma collect_empty_iff (a b : string) (p : gmap string Path) :
  collect a b p = ∅ <->
  forall name path, p !! name = Some path -> between a b path = false.
Proof.
  rewrite map_empty. split.
  - intros Hnone name path Hl.
    destruct (between a b path) eqn:Hb; [|reflexivity].
    assert (Hc : collect a b p !! name = Some path)
      by (apply collect_lookup; now split).
    rewrite Hnone in Hc. discriminate.
  - intros Hall name.
    destruct (collect a b p !! name) as [path|] eqn:Hc; [|reflexivity].
    apply collect_lookup in Hc as [Hl Hb].
    rewrite (Hall name path Hl) in Hb. discriminate.
Qed.

Lemma Paths_PathsFromChains_found (p : gmap string Path) (a b : string) :
  collect a b p <> ∅ -> Paths_PathsFromChains p a b = (collect a b p, None).
Proof.
  intros Hne. unfold Paths_PathsFromChains.
  destruct (Nat.eqb_spec (size (collect a b p)) 0) as [Hz|Hz]; [|reflexivity].
  now apply map_size_empty_iff in Hz.
Qed.

Lemma Paths_PathsFromChains_none (p : gmap string Path) (a b : string) :
  collect a b p = ∅ ->
  Paths_PathsFromChains p a b
  = (∅, Some ("failed to find path in config between chains "
                +:+ a +:+ " and " +:+ b)).
Proof.
  intros He. unfold Paths_PathsFromChains. rewrite He, map_size_empty. reflexivity.
Qed.

Lemma Paths_PathsFromChains_fst (p : gmap string Path) (a b : string) :
  fst (Paths_PathsFromChains p a b) = collect a b p.
Proof.
  destruct (decide (collect a b p = ∅)) as [He|Hne].
  - rewrite Paths_PathsFromChains_none by exact He. now rewrite He.
  - now rewrite Paths_PathsFromChains_found.
Qed.

Lemma Paths_PathsFromChains_error (p : gmap string Path) (a b : string) :
  snd (Paths_PathsFromChains p a b) <> None <-> collect a b p = ∅.
Proof.
  destruct (decide (collect a b p = ∅)) as [He|Hne].
  - rewrite Paths_PathsFromChains_none by exact He. simpl. intuition discriminate.
  - rewrite Paths_PathsFromChains_found by exact Hne. simpl. tauto.
Qed.

(** C7, as the code has it: [PathsFromChains a b] returns exactly the
    registered paths for which each of [a] and [b] is the source's or the
    destination's chain identifier; for [a <> b] these are exactly the paths
    whose pair of chain identifiers is the pair [a], [b]; the returned paths
    are the same for [(a, b)] and [(b, a)]; and the call fails exactly when no
    registered path matches, then in both argument orders. *)
Theorem Paths_PathsFromChains_spec (p : gmap string Path) (a b : string) :
  (forall name path,
     fst (Paths_PathsFromChains p a b) !! name = Some path <->
     p !! name = Some path
     /\ (ChainID (Dst path) = a \/ ChainID (Src path) = a)
     /\ (ChainID (Dst path) = b \/ ChainID (Src path) = b))
  /\ (a <> b ->
      forall name path,
        fst (Paths_PathsFromChains p a b) !! name = Some path <->
        p !! name = Some path
        /\ ({[ChainID (Src path); ChainID (Dst path)]} : gset string) = {[a; b]})
  /\ fst (Paths_PathsFromChains p a b) = fst (Paths_PathsFromChains p b a)
  /\ (snd (Paths_PathsFromChains p a b) <> None <->
      forall name path, p !! name = Some path -> between a b path = false)
  /\ (snd (Paths_PathsFromChains p a b) <> None <->
      snd (Paths_PathsFromChains p b a) <> None).
Proof.
  rewrite !Paths_PathsFromChains_fst, !Paths_PathsFromChains_error.
  split; [|split; [|split; [|split]]].
  - intros name path. rewrite collect_lookup, between_iff. reflexivity.
  - intros Hab name path. rewrite collect_lookup, (between_pair a b path Hab).
    reflexivity.
  - apply collect_sym.
  - apply collect_empty_iff.
  - now rewrite (collect_sym a b).
Qed.

(** C7, as stated, fails for [a = b]: asked for the paths between ["ibc0"]
    and ["ibc0"], the registry returns the path from ["ibc0"] to ["ibc1"],
    whose pair of chain identifiers is not the pair asked for. *)
Lemma Paths_PathsFromChains_same_chain :
  registry01 !! "demo" = Some path01
  /\ fst (Paths_PathsFromChains registry01 "ibc0" "ibc0") !! "demo" = Some path01
  /\ ({[ChainID (Src path01); ChainID (Dst path01)]} : gset string)
     <> {["ibc0"; "ibc0"]}.
Proof.
  split; [|split].
  - apply lookup_singleton_eq.
  - rewrite Paths_PathsFromChains_fst. apply collect_lookup. split.
    + apply lookup_singleton_eq.
    + reflexivity.
  - simpl. intros Heq.
    assert (Hin : "ibc1" ∈ ({["ibc0"; "ibc1"]} : gset string)) by set_solver.
    rewrite Heq in Hin. set_solver.
Qed.

(** ** The goroutines of a stage *)

Lemma go_both_calls (i : interleaving) (e_src e_dst : error)
    (c_src c_dst : event) (st : shared) :
  calls (go_both i e_src e_dst c_src c_dst st)
  = (calls st ++ calls_of i c_src c_dst)%list.
Proof.
  destruct i; cbn; rewrite <- app_assoc; reflexivity.
Qed.

(** Two calls that succeed leave [err] nil and the group as it was. *)
Lemma go_both_nil (i : interleaving) (c_src c_dst : event) (st : shared) :
  go_both i None None c_src c_dst st
  = {| err := None; eg := eg st;
       calls := (calls st ++ calls_of i c_src c_dst)%list |}.
Proof.
  destruct i; cbn; rewrite <- app_assoc; reflexivity.
Qed.

(** When the goroutines run one after the other, each returns the error of
    its own call: the group holds no error only if neither call failed. *)
Lemma go_both_sequential (i : interleaving) (e_src e_dst : error)
    (c_src c_dst : event) (st : shared) :
  sequential i = true ->
  group_err (eg (go_both i e_src e_dst c_src c_dst st)) = None ->
  e_src = None /\ e_dst = None.
Proof.
  destruct i; try discriminate; intros _; cbn; unfold Group_done; cbn;
    destruct (group_err (eg st)) eqn:Hg, e_src, e_dst; cbn;
    rewrite ?Hg; cbn; rewrite ?Hg; intros H;
    try discriminate; split; reflexivity.
Qed.

(** A group that holds an error keeps it. *)
Lemma go_both_sticky (i : interleaving) (e_src e_dst : error)
    (c_src c_dst : event) (st : shared) (e : string) :
  group_err (eg st) = Some e ->
  group_err (eg (go_both i e_src e_dst c_src c_dst st)) = Some e.
Proof.
  intros He.
  destruct i; cbn; unfold Group_done; cbn;
    destruct e_src, e_dst; cbn; rewrite ?He; cbn; rewrite ?He; reflexivity.
Qed.

(** ** [QueryPathStatus] *)

Ltac run_check :=
  repeat match goal with
         | |- context [match ?x with pair _ _ => _ end] => destruct x
         | |- context [if ?b then _ else _] => destruct b eqn:?
         | |- context [match or_else ?a ?b with _ => _ end] =>
             destruct (or_else a b) as [[|]|] eqn:?
         end.

(** The check ends in a panic or returns the path with the flags of the
    stages it passed. *)
Lemma QueryPathStatus_shape (sch : schedule) (p : Path) (src dst : ProvableChain) :
  fst (QueryPathStatus sch p src dst) = Panics
  \/ exists n, fst (QueryPathStatus sch p src dst)
               = Returns {| pws_Path := p; Status := reached n |}.
Proof.
  unfold QueryPathStatus. cbv zeta. run_check; cbn [fst];
    first [ now left
          | right; exists 0; reflexivity
          | right; exists 1; reflexivity
          | right; exists 2; reflexivity
          | right; exists 3; reflexivity
          | right; exists 4; reflexivity ].
Qed.

Lemma reached_staged (n : nat) : staged (reached n).
Proof.
  unfold staged, reached; cbn.
  destruct n as [|[|[|[|n]]]]; cbn; repeat split; intros; congruence.
Qed.

(** C3: a status that [QueryPathStatus] returns is a staged prefix:
    [Clients] only with [Chains], [Connection] only with [Clients], [Channel]
    only with [Connection] -- for every order of the goroutines. *)
Theorem QueryPathStatus_staged (sch : schedule) (p : Path)
    (src dst : ProvableChain) (out : PathWithStatus) :
  fst (QueryPathStatus sch p src dst) = Returns out ->
  staged (Status out).
Proof.
  intros Hout.
  destruct (QueryPathStatus_shape sch p src dst) as [Hp | [n Hn]].
  - rewrite Hp in Hout. discriminate.
  - rewrite Hn in Hout. injection Hout as <-. apply reached_staged.
Qed.

Lemma QueryPathStatus_staged_witness :
  staged (Status {| pws_Path := path01; Status := reached 3 |}).
Proof.
  apply (QueryPathStatus_staged in_order path01
           (chain_open height5) (chain_closed height9)).
  vm_compute. reflexivity.
Defined.

(** *** The calls of a check *)







(** The calls of a check that passes every stage, on two open chains. *)
Example QueryPathStatus_calls_all_open :
  snd (QueryPathStatus in_order path01 (chain_open height5) (chain_open height9))
  = [ev_LatestHeight side_src; ev_LatestHeight side_dst;
     ev_QueryClientState side_src (NewQueryContext context_TODO (Some height5));
     ev_QueryClientState side_dst (NewQueryContext context_TODO (Some height9));
     ev_QueryConnection side_src (NewQueryContext context_TODO (Some height5));
     ev_QueryConnection side_dst (NewQueryContext context_TODO (Some height9));
     ev_QueryChannel side_src (NewQueryContext context_TODO (Some height5));
     ev_QueryChannel side_dst (NewQueryContext context_TODO (Some height9))].
Proof. reflexivity. Qed.

(** *** The stages *)

Section Stages.

Variable sch : schedule.
Variable p : Path.
Variables src dst : ProvableChain.

Let q_src : QueryContext := NewQueryContext context_TODO (fst (LatestHeight src)).
Let q_dst : QueryContext := NewQueryContext context_TODO (fst (LatestHeight dst)).

(** When the source's [LatestHeight] fails and its assignment to [err] is
    the later of the two, every flag is false. *)
Lemma QueryPathStatus_src_height_error_last (e : string) :
  snd (LatestHeight src) = Some e ->
  stage1 sch = dst_then_src \/ stage1 sch = dst_src_assign_src_dst_return
  \/ stage1 sch = dst_src_assign_dst_src_return ->
  fst (QueryPathStatus sch p src dst)
  = Returns {| pws_Path := p; Status := reached 0 |}.
Proof.
  intros He Hi. unfold QueryPathStatus. cbv zeta.
  destruct (LatestHeight src) as [srch e1]. cbn in He. subst e1.
  destruct (LatestHeight dst) as [dsth e2].
  destruct Hi as [-> | [-> | ->]]; reflexivity.
Qed.

(** When the source's [LatestHeight] fails, the destination's succeeds and
    the source's goroutine is done before the destination's starts, the
    shared [err] is nil after stage 1 and [Chains] is set; the group keeps the
    source's error, which ends the check in stage 2. *)
Lemma QueryPathStatus_src_height_error_first (e : string) :
  snd (LatestHeight src) = Some e ->
  snd (LatestHeight dst) = None ->
  stage1 sch = src_then_dst ->
  fst (QueryPathStatus sch p src dst)
  = Returns {| pws_Path := p; Status := reached 1 |}.
Proof.
  intros He Hd Hi. unfold QueryPathStatus. cbv zeta.
  destruct (LatestHeight src) as [srch e1]. cbn in He. subst e1.
  destruct (LatestHeight dst) as [dsth e2]. cbn in Hd. subst e2.
  rewrite Hi.
  destruct (QueryClientState src _) as [srcCs e3].
  destruct (QueryClientState dst _) as [dstCs e4].
  cbn [wait_err err eg]. unfold Group_Wait.
  rewrite (go_both_sticky _ _ _ _ _ _ e) by reflexivity.
  reflexivity.
Qed.

(** When both heights are fetched and the destination's client-state query
    returns no response, only [Chains] is set. *)
Lemma QueryPathStatus_no_client :
  snd (LatestHeight src) = None ->
  snd (LatestHeight dst) = None ->
  fst (QueryClientState dst q_dst) = None ->
  fst (QueryPathStatus sch p src dst)
  = Returns {| pws_Path := p; Status := reached 1 |}.
Proof.
  subst q_src q_dst. intros Hs Hd Hc. unfold QueryPathStatus. cbv zeta.
  destruct (LatestHeight src) as [srch e1]. cbn in Hs. subst e1.
  destruct (LatestHeight dst) as [dsth e2]. cbn in Hd. subst e2.
  rewrite go_both_nil. cbn [err negb is_nil fst] in *.
  destruct (QueryClientState src _) as [srcCs e3].
  destruct (QueryClientState dst _) as [dstCs e4]. cbn in Hc. subst dstCs.
  cbn [is_nil]. rewrite !orb_true_r. reflexivity.
Qed.

(** When both heights are fetched, both clients exist, both connections are
    open, the source's channel query answers and the destination's channel is
    not open, the first three flags are set. *)
Lemma QueryPathStatus_channel_not_open
    (srcCs dstCs : clienttypes.QueryClientStateResponse)
    (s_src s_dst : chantypes.State) :
  snd (LatestHeight src) = None ->
  snd (LatestHeight dst) = None ->
  QueryClientState src q_src = (Some srcCs, None) ->
  QueryClientState dst q_dst = (Some dstCs, None) ->
  QueryConnection src q_src = (conn_resp conntypes.OPEN, None) ->
  QueryConnection dst q_dst = (conn_resp conntypes.OPEN, None) ->
  QueryChannel src q_src = (chan_resp s_src, None) ->
  QueryChannel dst q_dst = (chan_resp s_dst, None) ->
  s_dst <> chantypes.OPEN ->
  fst (QueryPathStatus sch p src dst)
  = Returns {| pws_Path := p; Status := reached 3 |}.
Proof.
  subst q_src q_dst. intros Hs Hd Hc1 Hc2 Hn1 Hn2 Hh1 Hh2 Hclosed.
  unfold QueryPathStatus. cbv zeta.
  destruct (LatestHeight src) as [srch e1]. cbn in Hs. subst e1.
  destruct (LatestHeight dst) as [dsth e2]. cbn in Hd. subst e2.
  cbn [fst] in *. rewrite Hc1, Hc2, Hn1, Hn2, Hh1, Hh2.
  rewrite !go_both_nil. cbn.
  destruct s_src, s_dst; try reflexivity; contradiction.
Qed.

(** When every call succeeds and connections and channels are open, every
    flag is set. *)
Lemma QueryPathStatus_all_open
    (srcCs dstCs : clienttypes.QueryClientStateResponse) :
  snd (LatestHeight src) = None ->
  snd (LatestHeight dst) = None ->
  QueryClientState src q_src = (Some srcCs, None) ->
  QueryClientState dst q_dst = (Some dstCs, None) ->
  QueryConnection src q_src = (conn_resp conntypes.OPEN, None) ->
  QueryConnection dst q_dst = (conn_resp conntypes.OPEN, None) ->
  QueryChannel src q_src = (chan_resp chantypes.OPEN, None) ->
  QueryChannel dst q_dst = (chan_resp chantypes.OPEN, None) ->
  fst (QueryPathStatus sch p src dst)
  = Returns {| pws_Path := p; Status := reached 4 |}.
Proof.
  subst q_src q_dst. intros Hs Hd Hc1 Hc2 Hn1 Hn2 Hh1 Hh2.
  unfold QueryPathStatus. cbv zeta.
  destruct (LatestHeight src) as [srch e1]. cbn in Hs. subst e1.
  destruct (LatestHeight dst) as [dsth e2]. cbn in Hd. subst e2.
  cbn [fst] in *. rewrite Hc1, Hc2, Hn1, Hn2, Hh1, Hh2.
  rewrite !go_both_nil. reflexivity.
Qed.

End Stages.

(** C1, at the input where the code departs from it: the source's
    [LatestHeight] fails, the destination's succeeds, and in each stage the
    source's goroutine is done before the destination's starts. The
    destination's assignment leaves the shared [err] nil, the result of
    [eg.Wait()] is dropped, and the check returns with [Chains] set. *)
Theorem QueryPathStatus_src_height_error_in_order :
  snd (LatestHeight chain_no_height) = Some "latest height: connection refused"
  /\ fst (QueryPathStatus in_order path01 chain_no_height (chain_open height9))
     = Returns {| pws_Path := path01;
                  Status := {| Chains := true; Clients := false;
                               Connection := false; Channel := false |} |}.
Proof. split; reflexivity. Qed.

(** At the same input, when both goroutines of a stage assign before either
    returns, no error reaches the group either and every flag is set. *)
Example QueryPathStatus_src_height_error_overlapped :
  fst (QueryPathStatus overlapped path01 chain_no_height (chain_open height9))
  = Returns {| pws_Path := path01;
               Status := {| Chains := true; Clients := true;
                            Connection := true; Channel := true |} |}.
Proof. reflexivity. Qed.

(** *** Reading the states of the responses *)

Lemma guard_total (i : interleaving) (e_src e_dst : error) (c_src c_dst : event)
    (st : shared) (a b : outcome bool) :
  sequential i = true ->
  (e_src = None -> a <> Panics) ->
  (e_dst = None -> b <> Panics) ->
  or_else
    (Returns (negb (is_nil (err (wait_err (go_both i e_src e_dst c_src c_dst st))))))
    (or_else a b)
  <> Panics.
Proof.
  intros Hi Ha Hb. cbn [err wait_err]. unfold Group_Wait.
  destruct (group_err (eg (go_both i e_src e_dst c_src c_dst st))) eqn:Hg; cbn.
  - discriminate.
  - apply go_both_sequential in Hg as [H1 H2]; [|exact Hi].
    specialize (Ha H1). specialize (Hb H2).
    destruct a as [[|]|]; cbn; try discriminate; try contradiction.
    destruct b as [[|]|]; cbn; try discriminate; contradiction.
Qed.

Lemma conn_not_open_present (c : ProvableChain) (q : QueryContext)
    (r : option conntypes.QueryConnectionResponse) (e : error) :
  states_present c -> QueryConnection c q = (r, e) -> e = None ->
  conn_not_open r <> Panics.
Proof.
  intros Hc Hq ->. destruct (Hc q) as [Hconn _].
  destruct (Hconn r Hq) as (resp & ce & -> & Hce).
  cbn. rewrite Hce. discriminate.
Qed.

Lemma chan_not_open_present (c : ProvableChain) (q : QueryContext)
    (r : option chantypes.QueryChannelResponse) (e : error) :
  states_present c -> QueryChannel c q = (r, e) -> e = None ->
  chan_not_open r <> Panics.
Proof.
  intros Hc Hq ->. destruct (Hc q) as [_ Hchan].
  destruct (Hchan r Hq) as (resp & ch & -> & Hch).
  cbn. rewrite Hch. discriminate.
Qed.

(** C10, as the code has it: stages 3 and 4 read the state through the
    response and through its [Connection] or [Channel] field without a nil
    check. When on both chains every connection and channel query that
    returns a nil error returns a response whose [Connection] or [Channel]
    field is set, and the two goroutines of stage 3 and of stage 4 run one
    after the other, the check returns a status. *)
Theorem QueryPathStatus_total (sch : schedule) (p : Path) (src dst : ProvableChain) :
  sequential (stage3 sch) = true ->
  sequential (stage4 sch) = true ->
  states_present src ->
  states_present dst ->
  exists out, fst (QueryPathStatus sch p src dst) = Returns out.
Proof.
  intros H3 H4 Hsrc Hdst. unfold QueryPathStatus. cbv zeta.
  destruct (LatestHeight src) as [srch e1].
  destruct (LatestHeight dst) as [dsth e2].
  destruct (negb (is_nil (err _))); [eauto|].
  destruct (QueryClientState src _) as [srcCs e3].
  destruct (QueryClientState dst _) as [dstCs e4].
  destruct (_ || _ || _); [eauto|].
  destruct (QueryConnection src _) as [srcConn e5] eqn:Hq5.
  destruct (QueryConnection dst _) as [dstConn e6] eqn:Hq6.
  match goal with
  | |- context [match ?g with _ => _ end] => destruct g as [[|]|] eqn:Hguard3
  end; [eauto | | exfalso; revert Hguard3; apply guard_total;
                  [exact H3
                  | intros He; eapply (conn_not_open_present src); eassumption
                  | intros He; eapply (conn_not_open_present dst); eassumption]].
  destruct (QueryChannel src _) as [srcChan e7] eqn:Hq7.
  destruct (QueryChannel dst _) as [dstChan e8] eqn:Hq8.
  match goal with
  | |- context [match ?g with _ => _ end] => destruct g as [[|]|] eqn:Hguard4
  end; [eauto | eauto | exfalso; revert Hguard4; apply guard_total;
                  [exact H4
                  | intros He; eapply (chan_not_open_present src); eassumption
                  | intros He; eapply (chan_not_open_present dst); eassumption]].
Qed.

Lemma chain_open_states_present (h : Height) : states_present (chain_open h).
Proof.
  intros q. split; intros r [= <-]; cbn; eauto.
Qed.

Lemma chain_closed_states_present (h : Height) : states_present (chain_closed h).
Proof.
  intros q. split; intros r [= <-]; cbn; eauto.
Qed.

Lemma QueryPathStatus_total_witness :
  exists out,
    fst (QueryPathStatus in_order path01 (chain_open height5) (chain_closed height9))
    = Returns out.
Proof.
  apply (QueryPathStatus_total in_order path01
           (chain_open height5) (chain_closed height9)).
  - reflexivity.
  - reflexivity.
  - apply chain_open_states_present.
  - apply chain_closed_states_present.
Defined.

(** C10, as stated, fails: a chain that never returns a nil response with a
    nil error, but a connection response whose [Connection] field is nil,
    makes the check panic. *)
Lemma QueryPathStatus_nil_Connection_panics :
  responses_present (chain_nil_Connection height5)
  /\ responses_present (chain_open height9)
  /\ fst (QueryPathStatus in_order path01
            (chain_nil_Connection height5) (chain_open height9))
     = Panics.
Proof.
  split; [|split].
  - intros q. split; discriminate.
  - intros q. split; discriminate.
  - reflexivity.
Qed.

(** A nil connection response with a nil error makes the check panic, where
    a nil client-state response with a nil error ends it with [Chains] set. *)
Example QueryPathStatus_nil_response_panics :
  fst (QueryPathStatus in_order path01 (chain_nil_response height5) (chain_open height9))
  = Panics
  /\ fst (QueryPathStatus in_order path01 (chain_open height5) (chain_no_client height9))
     = Returns {| pws_Path := path01; Status := reached 1 |}.
Proof. split; reflexivity. Qed.

(** A connection query that fails with a nil response ends the check with
    [Clients] set when the goroutines run one after the other; when both
    assign before either returns, the destination's nil error hides the
    failure and the check panics. *)
Example QueryPathStatus_hidden_error_panics :
  fst (QueryPathStatus in_order path01 (chain_conn_error height5) (chain_open height9))
  = Returns {| pws_Path := path01; Status := reached 2 |}
  /\ fst (QueryPathStatus overlapped path01 (chain_conn_error height5) (chain_open height9))
     = Panics.
Proof. split; reflexivity. Qed.

(** ** The signer of [TxOpts] *)

Section SignerFacts.

Context {Address PrivateKey PublicKey Digest Signature Tx : Type}.
Context `{EqDecision Address}.
Variable PublicKey_of : PrivateKey -> PublicKey.
Variable PubkeyToAddress : PublicKey -> Address.
Variable EIP155_Hash : Z -> Tx -> Digest.
Variable Sign : Digest -> PrivateKey -> Signature * error.
Variable sign_values : Z -> Tx -> Signature -> Tx + string.
Variable chain : Chain (PrivateKey := PrivateKey).
Variable ctx : Context.

Let opts : TransactOpts :=
  Chain_TxOpts PublicKey_of PubkeyToAddress EIP155_Hash Sign sign_values chain ctx.
Let addr : Address := PubkeyToAddress (PublicKey_of (relayerPrvKey chain)).

Lemma Signer_unauthorized (address : Address) (tx : positive)
    (w : world (Digest := Digest) (PrivateKey := PrivateKey) (Tx := Tx)) :
  address <> addr ->
  Signer opts address tx w
  = Returns ((None, Some "not authorized to sign this account"), w).
Proof.
  intros Hne. subst opts addr. cbn.
  rewrite bool_decide_eq_false_2 by exact Hne. reflexivity.
Qed.

(** A new transaction object does not take the place of an existing one. *)
Lemma fresh_tx (m : gmap positive Tx) (l : positive) (t t' : Tx) :
  m !! l = Some t -> <[fresh (dom m) := t']> m !! l = Some t.
Proof.
  intros Hl. rewrite lookup_insert_ne; [exact Hl|].
  intros Heq. apply (is_fresh (dom m)). rewrite Heq.
  apply elem_of_dom. eauto.
Qed.

Lemma Signer_authorized (tx : positive) (t : Tx)
    (w : world (Digest := Digest) (PrivateKey := PrivateKey) (Tx := Tx)) :
  txs w !! tx = Some t ->
  exists res w',
    Signer opts addr tx w = Returns (res, w')
    /\ signatures w'
       = (signatures w
            ++ [(EIP155_Hash (chainID chain) t, relayerPrvKey chain)])%list
    /\ (forall l t0, txs w !! l = Some t0 -> txs w' !! l = Some t0)
    /\ match Sign (EIP155_Hash (chainID chain) t) (relayerPrvKey chain) with
       | (_, Some e) => res = (None, Some e) /\ txs w' = txs w
       | (sig, None) =>
           match sign_values (chainID chain) t sig with
           | inr e => res = (None, Some e) /\ txs w' = txs w
           | inl t' =>
               exists l, res = (Some l, None) /\ txs w !! l = None
                         /\ txs w' = <[l := t']> (txs w)
           end
       end.
Proof.
  intros Htx. subst opts addr. cbn.
  rewrite bool_decide_eq_true_2 by reflexivity. cbn.
  unfold signer_Hash, tx_WithSignature, crypto_Sign. cbn. rewrite Htx.
  destruct (Sign (EIP155_Hash (chainID chain) t) (relayerPrvKey chain))
    as [sig [e|]].
  - eexists _, _. split; [reflexivity|]. cbn. repeat split; auto.
  - cbn. rewrite ?Htx.
    destruct (sign_values (chainID chain) t sig) as [t'|e].
    + eexists _, _. split; [reflexivity|]. cbn. split; [reflexivity|]. split.
      * intros l t0 Hl. now apply fresh_tx.
      * exists (fresh (dom (txs w))). repeat split.
        apply not_elem_of_dom. apply is_fresh.
    + eexists _, _. split; [reflexivity|]. cbn. repeat split; auto.
Qed.

(** C5: the signer of [TxOpts] is bound to the address of the held key.
    Called with another address it fails with the not-authorized error and
    the world is as before: [gethcrypto.Sign] is not called. Called with its
    own address on a transaction [t] it calls [gethcrypto.Sign] once, on the
    EIP155 digest of [t] for the chain's identifier and with the held key;
    an error of [Sign] is returned as it is; otherwise the result is that of
    [WithSignature]: a new transaction object holding [t] combined with the
    signature, or the error of a rejected signature. Every transaction
    object that existed, the signed one among them, is as before. *)
Theorem TxOpts_Signer_spec (address : Address) (tx : positive) (t : Tx)
    (w : world (Digest := Digest) (PrivateKey := PrivateKey) (Tx := Tx)) :
  From opts = addr
  /\ (address <> addr ->
      Signer opts address tx w
      = Returns ((None, Some "not authorized to sign this account"), w))
  /\ (txs w !! tx = Some t ->
      exists res w',
        Signer opts addr tx w = Returns (res, w')
        /\ signatures w'
           = (signatures w
                ++ [(EIP155_Hash (chainID chain) t, relayerPrvKey chain)])%list
        /\ txs w' !! tx = Some t
        /\ (forall l t0, txs w !! l = Some t0 -> txs w' !! l = Some t0)
        /\ match Sign (EIP155_Hash (chainID chain) t) (relayerPrvKey chain) with
           | (_, Some e) => res = (None, Some e) /\ txs w' = txs w
           | (sig, None) =>
               match sign_values (chainID chain) t sig with
               | inr e => res = (None, Some e) /\ txs w' = txs w
               | inl t' =>
                   exists l, res = (Some l, None) /\ txs w !! l = None
                             /\ txs w' = <[l := t']> (txs w)
               end
           end).
Proof.
  split; [reflexivity|]. split.
  - apply Signer_unauthorized.
  - intros Htx.
    destruct (Signer_authorized tx t w Htx) as (res & w' & Hrun & Hsig & Hkeep & Hres).
    exists res, w'. repeat split; auto.
Qed.

End SignerFacts.

Lemma TxOpts_Signer_spec_witness :
  Signer toy_TxOpts 86%Z 1%positive toy_world
  = Returns ((None, Some "not authorized to sign this account"), toy_world)
  /\ exists res w',
       Signer toy_TxOpts 85%Z 1%positive toy_world = Returns (res, w')
       /\ signatures w' = [((31 * 7 + 1337)%Z, 42%Z)]
       /\ txs w' !! 1%positive = Some {| payload := 7; signed_with := None |}.
Proof.
  destruct (TxOpts_Signer_spec toy_PublicKey_of toy_PubkeyToAddress toy_Hash
              toy_Sign toy_sign_values toy_chain context_TODO
              86%Z 1%positive {| payload := 7; signed_with := None |} toy_world)
    as (_ & Hno & Hyes).
  split.
  - apply Hno. vm_compute. discriminate.
  - destruct (Hyes (lookup_singleton_eq _ _)) as (res & w' & Hrun & Hsig & Htx & _).
    exists res, w'. split; [exact Hrun|]. split; [exact Hsig|]. exact Htx.
Defined.

(** * Further properties *)

(** ** Strings *)

Lemma append_cons (c : ascii) (a b : string) :
  String c a +:+ b = String c (a +:+ b).
Proof. reflexivity. Qed.

Lemma append_length (a b : string) :
  String.length (a +:+ b) = String.length a + String.length b.
Proof.
  induction a as [|c a IH]; [reflexivity|].
  rewrite append_cons. cbn. now rewrite IH.
Qed.

Lemma all_lowercase_append (a b : string) :
  all_lowercase (a +:+ b) = all_lowercase a && all_lowercase b.
Proof.
  induction a as [|c a IH]; [reflexivity|].
  rewrite append_cons. cbn. rewrite IH. apply andb_assoc.
Qed.

Lemma append_inv_head (s a b : string) : s +:+ a = s +:+ b -> a = b.
Proof.
  induction s as [|c s IH]; [tauto|].
  rewrite !append_cons. intros [= H]. now apply IH.
Qed.

(** ** Random identifiers *)

Lemma all_lowercase_one (c : ascii) : all_lowercase (String c "") = lowercase c.
Proof. cbn. apply andb_true_r. Qed.

Lemma chars_lowercase (i : nat) : lowercase (nth i chars "a"%char) = true.
Proof.
  do 26 (destruct i as [|i]; [reflexivity|]). destruct i; reflexivity.
Qed.

Lemma rand_letters_spec (n : nat) (b : string) (r : Reader) :
  String.length (fst (rand_letters n b r)) = String.length b + n
  /\ all_lowercase (fst (rand_letters n b r)) = all_lowercase b
  /\ pos (snd (rand_letters n b r)) = pos r + n
  /\ draws (snd (rand_letters n b r)) = draws r.
Proof.
  revert b r. induction n as [|n IH]; intros b r; cbn [rand_letters].
  - cbn. repeat split; lia.
  - unfold rand_Int. cbv beta iota.
    match goal with
    | |- context [rand_letters n ?b' ?r'] =>
        destruct (IH b' r') as (Hlen & Hlow & Hpos & Hdraws)
    end.
    rewrite Hlen, Hlow, Hpos, Hdraws.
    rewrite append_length, all_lowercase_append, all_lowercase_one,
      chars_lowercase, andb_true_r.
    cbn [String.length pos draws]. repeat split; lia.
Qed.

Lemma RandLowerCaseLetterString_draws (length : Z) (r : Reader) :
  String.length (fst (RandLowerCaseLetterString length r)) = Z.to_nat length
  /\ all_lowercase (fst (RandLowerCaseLetterString length r)) = true
  /\ pos (snd (RandLowerCaseLetterString length r)) = pos r + Z.to_nat length
  /\ draws (snd (RandLowerCaseLetterString length r)) = draws r.
Proof.
  unfold RandLowerCaseLetterString.
  destruct (rand_letters_spec (Z.to_nat length) "" r) as (Hlen & Hlow & Hpos & Hdraws).
  repeat split; assumption.
Qed.

(** The string of [RandLowerCaseLetterString] has as many characters as
    asked for, all of them lowercase letters, and is the empty string for a
    length that is zero or negative; one draw is taken from the reader for
    every character, and the reader's later draws are as they were. *)
Theorem RandLowerCaseLetterString_spec (length : Z) (r : Reader) :
  String.length (fst (RandLowerCaseLetterString length r)) = Z.to_nat length
  /\ all_lowercase (fst (RandLowerCaseLetterString length r)) = true
  /\ pos (snd (RandLowerCaseLetterString length r)) = pos r + Z.to_nat length
  /\ draws (snd (RandLowerCaseLetterString length r)) = draws r
  /\ ((length <= 0)%Z -> RandLowerCaseLetterString length r = ("", r)).
Proof.
  destruct (RandLowerCaseLetterString_draws length r) as (Hlen & Hlow & Hpos & Hdraws).
  repeat split; try assumption.
  intros Hle. unfold RandLowerCaseLetterString.
  replace (Z.to_nat length) with 0 by lia. reflexivity.
Qed.

Lemma RandLowerCaseLetterString_generated (r : Reader) :
  generated (fst (RandLowerCaseLetterString 10 r))
  /\ pos (snd (RandLowerCaseLetterString 10 r)) = pos r + 10.
Proof.
  destruct (RandLowerCaseLetterString_draws 10 r) as (Hlen & Hlow & Hpos & _).
  repeat split; assumption.
Qed.

Ltac regenerate r :=
  destruct (RandLowerCaseLetterString_generated r) as [Hgen Hpos];
  destruct (RandLowerCaseLetterString 10 r) as [id r'];
  cbn [fst snd] in *;
  split; [split; [reflexivity | split;
    [ intros j Hj; do 6 (destruct j as [|j]; [first [reflexivity | contradiction]|]);
      reflexivity
    | exists id; split; [reflexivity | exact Hgen] ] ]
  | exact Hpos ].

(** Each of the six identifier generators replaces the one identifier it is
    named after by ten lowercase letters and leaves the other five
    identifiers, the chain and port identifiers, the orders, the versions
    and the strategy as they were; it takes ten draws from the reader. *)
Theorem Path_Gen_identifier (p : Path) (r : Reader) :
  (regenerated 0 p (fst (Path_GenSrcClientID p r))
   /\ pos (snd (Path_GenSrcClientID p r)) = pos r + 10)
  /\ (regenerated 1 p (fst (Path_GenSrcConnID p r))
      /\ pos (snd (Path_GenSrcConnID p r)) = pos r + 10)
  /\ (regenerated 2 p (fst (Path_GenSrcChanID p r))
      /\ pos (snd (Path_GenSrcChanID p r)) = pos r + 10)
  /\ (regenerated 3 p (fst (Path_GenDstClientID p r))
      /\ pos (snd (Path_GenDstClientID p r)) = pos r + 10)
  /\ (regenerated 4 p (fst (Path_GenDstConnID p r))
      /\ pos (snd (Path_GenDstConnID p r)) = pos r + 10)
  /\ (regenerated 5 p (fst (Path_GenDstChanID p r))
      /\ pos (snd (Path_GenDstChanID p r)) = pos r + 10).
Proof.
  unfold Path_GenSrcClientID, Path_GenSrcConnID, Path_GenSrcChanID,
    Path_GenDstClientID, Path_GenDstConnID, Path_GenDstChanID, regenerated.
  repeat (split; [regenerate r|]). regenerate r.
Qed.

(** The six identifiers of the path of [GenPath] are ten lowercase letters
    each, made from sixty successive draws of the reader; the chain and port
    identifiers, the order and the version are the arguments, the order and
    the version on both sides, and the strategy is ["naive"]. *)
Theorem GenPath_identifiers (a b c d order version : string) (r : Reader) :
  Forall generated (identifiers (fst (GenPath a b c d order version r)))
  /\ pos (snd (GenPath a b c d order version r)) = pos r + 60
  /\ draws (snd (GenPath a b c d order version r)) = draws r
  /\ configuration (fst (GenPath a b c d order version r))
     = [a; c; order; version; b; d; order; version; "naive"].
Proof.
  unfold GenPath.
  repeat match goal with
         | |- context [RandLowerCaseLetterString 10 ?x] =>
             let Hg := fresh "Hg" in
             let Hp := fresh "Hp" in
             let Hd := fresh "Hd" in
             destruct (RandLowerCaseLetterString_draws 10 x)
               as (Hg & ? & Hp & Hd);
             destruct (RandLowerCaseLetterString 10 x); cbn [fst snd] in *
         end.
  cbn. split; [|split; [|split]].
  - repeat constructor; assumption.
  - lia.
  - congruence.
  - reflexivity.
Qed.

(** ** The registry *)

Lemma Paths_Get_lookup (p : gmap string Path) (name : string) (pth : Path) :
  p !! name = Some pth -> Paths_Get p name = (Some pth, None).
Proof. intros Hl. unfold Paths_Get. now rewrite Hl. Qed.

Lemma Paths_Get_fst (p : gmap string Path) (name : string) :
  fst (Paths_Get p name) = p !! name.
Proof. unfold Paths_Get. now destruct (p !! name). Qed.

(** [Get] returns a path or an error, never both and never neither: the
    path registered under the name with a nil error, or no path and an
    error when the name is not registered; [MustGet] returns the same path
    in the first case and panics in the second. *)
Theorem Paths_Get_MustGet (p : gmap string Path) (name : string) :
  fst (Paths_Get p name) = p !! name
  /\ (snd (Paths_Get p name) = None <-> is_Some (p !! name))
  /\ (snd (Paths_Get p name) <> None <-> fst (Paths_Get p name) = None)
  /\ (Paths_MustGet p name = Panics <-> p !! name = None)
  /\ (forall pth, Paths_MustGet p name = Returns (Some pth) <-> p !! name = Some pth).
Proof.
  unfold Paths_MustGet, Paths_Get.
  destruct (p !! name) as [pth|]; cbn; repeat split;
    try (intros; congruence); try (intros; eauto; fail);
    try (intros [? ?]; congruence); try tauto.
Qed.

Section RegistryUse.

Variable pev : PathEnd -> error.
Variable vs : Path -> error.

(** After [Add] of a valid path under a name that is not registered, [Get]
    and [MustGet] find that path under the name, [Get] answers for every
    other name as before, and the registry has one entry more. *)
Theorem Paths_Add_then_Get (p : gmap string Path) (name : string) (path : Path) :
  Path_Validate pev vs path = None ->
  p !! name = None ->
  fst (Paths_Add pev vs p name path) = None
  /\ Paths_Get (snd (Paths_Add pev vs p name path)) name = (Some path, None)
  /\ Paths_MustGet (snd (Paths_Add pev vs p name path)) name = Returns (Some path)
  /\ (forall other, other <> name ->
        Paths_Get (snd (Paths_Add pev vs p name path)) other = Paths_Get p other)
  /\ size (snd (Paths_Add pev vs p name path)) = S (size p).
Proof.
  intros Hv Hl. rewrite (Paths_Add_fresh pev vs p name path Hv Hl). cbn [fst snd].
  assert (Hget : Paths_Get (<[name := path]> p) name = (Some path, None))
    by (apply Paths_Get_lookup, lookup_insert_eq).
  split; [reflexivity|]. split; [exact Hget|]. split.
  - unfold Paths_MustGet. now rewrite Hget.
  - split.
    + intros other Hne. unfold Paths_Get. now rewrite lookup_insert_ne.
    + now apply map_size_insert_None.
Qed.

(** A call of [Add] or [AddForce] that returns an error leaves the registry
    as it was, and one that returns no error registers the path under the
    name: no call registers an invalid path. *)
Theorem Paths_Add_AddForce_outcome (p : gmap string Path) (name : string) (path : Path) :
  (fst (Paths_Add pev vs p name path) <> None ->
     snd (Paths_Add pev vs p name path) = p)
  /\ (fst (Paths_Add pev vs p name path) = None ->
        snd (Paths_Add pev vs p name path) = <[name := path]> p
        /\ Path_Validate pev vs path = None /\ p !! name = None)
  /\ (fst (Paths_AddForce pev vs p name path) <> None ->
        snd (Paths_AddForce pev vs p name path) = p)
  /\ (fst (Paths_AddForce pev vs p name path) = None ->
        snd (Paths_AddForce pev vs p name path) = <[name := path]> p
        /\ Path_Validate pev vs path = None).
Proof.
  unfold Paths_Add, Paths_AddForce.
  destruct (Path_Validate pev vs path) as [e|]; cbn.
  - repeat split; intros; congruence.
  - destruct (p !! name) as [old|]; cbn; repeat split; intros; congruence.
Qed.

(** A registry in which every path passes [Validate] stays so under [Add]
    and [AddForce], whatever their arguments and whether they fail or not. *)
Theorem Paths_valid_preserved (p : gmap string Path) (name : string) (path : Path) :
  (forall n q, p !! n = Some q -> Path_Validate pev vs q = None) ->
  (forall n q, snd (Paths_Add pev vs p name path) !! n = Some q ->
               Path_Validate pev vs q = None)
  /\ (forall n q, snd (Paths_AddForce pev vs p name path) !! n = Some q ->
                  Path_Validate pev vs q = None).
Proof.
  intros Hall. unfold Paths_Add, Paths_AddForce.
  destruct (Path_Validate pev vs path) as [e|] eqn:Hv; cbn.
  - split; exact Hall.
  - assert (Hins : forall n q, <[name := path]> p !! n = Some q ->
                               Path_Validate pev vs q = None).
    { intros n q. destruct (decide (name = n)) as [->|Hne].
      - rewrite lookup_insert_eq. intros [= <-]. exact Hv.
      - rewrite lookup_insert_ne by exact Hne. apply Hall. }
    split; [|exact Hins].
    destruct (p !! name); cbn; [exact Hall | exact Hins].
Qed.

(** After [AddForce] of a valid path from chain [a] to chain [b],
    [PathsFromChains] finds it, asked for [a] and [b] in either order. *)
Theorem Paths_AddForce_then_PathsFromChains
    (p : gmap string Path) (name : string) (path : Path) :
  Path_Validate pev vs path = None ->
  snd (Paths_PathsFromChains (snd (Paths_AddForce pev vs p name path))
         (ChainID (Src path)) (ChainID (Dst path))) = None
  /\ fst (Paths_PathsFromChains (snd (Paths_AddForce pev vs p name path))
            (ChainID (Src path)) (ChainID (Dst path))) !! name = Some path
  /\ snd (Paths_PathsFromChains (snd (Paths_AddForce pev vs p name path))
            (ChainID (Dst path)) (ChainID (Src path))) = None
  /\ fst (Paths_PathsFromChains (snd (Paths_AddForce pev vs p name path))
            (ChainID (Dst path)) (ChainID (Src path))) !! name = Some path.
Proof.
  intros Hv. rewrite (Paths_AddForce_valid pev vs p name path Hv). cbn [snd].
  assert (Hin : forall a b, between a b path = true ->
                  collect a b (<[name := path]> p) !! name = Some path).
  { intros a b Hb. apply collect_lookup. split; [apply lookup_insert_eq | exact Hb]. }
  assert (Hab : between (ChainID (Src path)) (ChainID (Dst path)) path = true).
  { apply between_iff. tauto. }
  assert (Hba : between (ChainID (Dst path)) (ChainID (Src path)) path = true).
  { apply between_iff. tauto. }
  assert (Hfound : forall a b, between a b path = true ->
            Paths_PathsFromChains (<[name := path]> p) a b
            = (collect a b (<[name := path]> p), None)).
  { intros a b Hb. apply Paths_PathsFromChains_found.
    intros He. specialize (Hin a b Hb). rewrite He, lookup_empty in Hin.
    discriminate. }
  rewrite (Hfound _ _ Hab), (Hfound _ _ Hba). cbn [fst snd].
  repeat split; auto.
Qed.

End RegistryUse.

Lemma Paths_Add_then_Get_witness :
  Paths_Get (snd (Paths_Add PathEnd_Validate Path_ValidateStrategy
                    registry01 "other" path01)) "other"
  = (Some path01, None).
Proof.
  refine (proj1 (proj2 (Paths_Add_then_Get PathEnd_Validate Path_ValidateStrategy
                          registry01 "other" path01 eq_refl _))).
  unfold registry01. apply lookup_singleton_ne. discriminate.
Defined.

Lemma registry01_valid (n : string) (q : Path) :
  registry01 !! n = Some q ->
  Path_Validate PathEnd_Validate Path_ValidateStrategy q = None.
Proof.
  unfold registry01. intros Hl.
  apply lookup_singleton_Some in Hl as [_ <-]. reflexivity.
Qed.

Lemma Paths_valid_preserved_witness :
  Path_Validate PathEnd_Validate Path_ValidateStrategy path01_dst_unversioned
  = None.
Proof.
  apply (proj2 (Paths_valid_preserved PathEnd_Validate Path_ValidateStrategy
                  registry01 "next" path01_dst_unversioned registry01_valid)
           "next" path01_dst_unversioned).
  rewrite Paths_AddForce_valid by reflexivity. apply lookup_insert_eq.
Defined.

Lemma Paths_AddForce_then_PathsFromChains_witness :
  snd (Paths_PathsFromChains
         (snd (Paths_AddForce PathEnd_Validate Path_ValidateStrategy
                 registry01 "next" path01)) "ibc0" "ibc1")
  = None.
Proof.
  exact (proj1 (Paths_AddForce_then_PathsFromChains
                  PathEnd_Validate Path_ValidateStrategy
                  registry01 "next" path01 eq_refl)).
Defined.

Lemma collect_idempotent (a b : string) (p : gmap string Path) :
  collect a b (collect a b p) = collect a b p.
Proof.
  apply map_eq. intros name. apply option_eq. intros path.
  rewrite !collect_lookup. tauto.
Qed.

(** [PathsFromChains] asked again on its own result, for the same two
    chains, gives the same result: the same paths, or the same error when
    there are none. In particular it fails on the empty registry. *)
Theorem Paths_PathsFromChains_idempotent (p : gmap string Path) (a b : string) :
  Paths_PathsFromChains (fst (Paths_PathsFromChains p a b)) a b
  = Paths_PathsFromChains p a b
  /\ snd (Paths_PathsFromChains ∅ a b) <> None.
Proof.
  split.
  - rewrite Paths_PathsFromChains_fst.
    destruct (decide (collect a b p = ∅)) as [He|Hne].
    + rewrite (Paths_PathsFromChains_none p a b He), He.
      apply Paths_PathsFromChains_none. reflexivity.
    + rewrite (Paths_PathsFromChains_found p a b Hne).
      rewrite Paths_PathsFromChains_found by now rewrite collect_idempotent.
      now rewrite collect_idempotent.
  - apply Paths_PathsFromChains_error. reflexivity.
Qed.

Lemma Path_End_own (path : Path) (c : string) :
  ChainID (Dst path) = c \/ ChainID (Src path) = c ->
  (Path_End path c = ref_Dst \/ Path_End path c = ref_Src)
  /\ ChainID (load path (Path_End path c)) = c.
Proof.
  intros Hc. unfold Path_End.
  destruct (String.eqb_spec (ChainID (Dst path)) c) as [Hd|Hd]; cbn; [tauto|].
  destruct (String.eqb_spec (ChainID (Src path)) c) as [Hs|Hs]; cbn; tauto.
Qed.

(** On every path that [PathsFromChains a b] returns, [End] finds an end
    of the path itself, for [a] and for [b]: it does not make a new empty
    [PathEnd], and the end it returns is on the chain asked for. *)
Theorem Paths_PathsFromChains_End (p : gmap string Path) (a b : string)
    (name : string) (path : Path) :
  fst (Paths_PathsFromChains p a b) !! name = Some path ->
  ((Path_End path a = ref_Dst \/ Path_End path a = ref_Src)
   /\ ChainID (load path (Path_End path a)) = a)
  /\ ((Path_End path b = ref_Dst \/ Path_End path b = ref_Src)
      /\ ChainID (load path (Path_End path b)) = b).
Proof.
  rewrite Paths_PathsFromChains_fst, collect_lookup, between_iff.
  intros (_ & Ha & Hb). split; now apply Path_End_own.
Qed.

Lemma Paths_PathsFromChains_End_witness :
  ChainID (load path01 (Path_End path01 "ibc1")) = "ibc1".
Proof.
  refine (proj2 (proj1 (Paths_PathsFromChains_End registry01 "ibc1" "ibc0"
                          "demo" path01 _))).
  rewrite Paths_PathsFromChains_fst. apply collect_lookup. split.
  - apply lookup_singleton_eq.
  - reflexivity.
Defined.

(** ** More on [QueryPathStatus] *)

Lemma go_both_err (i : interleaving) (e_src e_dst : error)
    (c_src c_dst : event) (st : shared) :
  err (go_both i e_src e_dst c_src c_dst st) = last_assigned i e_src e_dst.
Proof. destruct i; reflexivity. Qed.

Lemma calls_of_length (i : interleaving) (c_src c_dst : event) :
  List.length (calls_of i c_src c_dst) = 2.
Proof. destruct i; reflexivity. Qed.

Lemma or_else_false (a : bool) (b c : outcome bool) :
  or_else (Returns a) (or_else b c) = Returns false ->
  a = false /\ b = Returns false /\ c = Returns false.
Proof.
  destruct a; cbn; [discriminate|].
  destruct b as [[|]|]; cbn; try discriminate.
  destruct c as [[|]|]; cbn; try discriminate. auto.
Qed.

Lemma conn_not_open_false (r : option conntypes.QueryConnectionResponse) :
  conn_not_open r = Returns false -> connection_open r.
Proof.
  unfold conn_not_open, connection_open.
  destruct r as [resp|]; [|discriminate].
  destruct resp as [[ce|]]; cbn; [|discriminate].
  destruct ce as [st]. destruct st; cbn; try discriminate.
  intros _. eexists _, _. repeat split.
Qed.

Lemma chan_not_open_false (r : option chantypes.QueryChannelResponse) :
  chan_not_open r = Returns false -> channel_open r.
Proof.
  unfold chan_not_open, channel_open.
  destruct r as [resp|]; [|discriminate].
  destruct resp as [[ce|]]; cbn; [|discriminate].
  destruct ce as [st]. destruct st; cbn; try discriminate.
  intros _. eexists _, _. repeat split.
Qed.

Lemma clients_present {A B : Type} (e : bool) (a : option A) (b : option B) :
  e || is_nil a || is_nil b = false -> a <> None /\ b <> None.
Proof. destruct e, a, b; cbn; try discriminate; split; discriminate. Qed.

Ltac read_guards :=
  repeat match goal with
         | H : or_else (Returns _) (or_else _ _) = Returns false |- _ =>
             apply or_else_false in H as (_ & ? & ?)
         | H : conn_not_open _ = Returns false |- _ =>
             apply conn_not_open_false in H
         | H : chan_not_open _ = Returns false |- _ =>
             apply chan_not_open_false in H
         | H : _ || is_nil _ || is_nil _ = false |- _ =>
             apply clients_present in H as [? ?]
         end.

(** The flags of a returned status are backed by what the chains answered
    at the fixed heights: with [Clients] set both client-state responses were
    there, with [Connection] set both connection responses carried the state
    OPEN, with [Channel] set both channel responses carried the state OPEN;
    and the status is returned with the path that was checked. This holds
    for every order of the goroutines. *)
Theorem QueryPathStatus_flags_sound (sch : schedule) (p : Path)
    (src dst : ProvableChain) (out : PathWithStatus) :
  fst (QueryPathStatus sch p src dst) = Returns out ->
  pws_Path out = p
  /\ (Clients (Status out) = true ->
      fst (QueryClientState src
             (NewQueryContext context_TODO (fst (LatestHeight src)))) <> None
      /\ fst (QueryClientState dst
                (NewQueryContext context_TODO (fst (LatestHeight dst)))) <> None)
  /\ (Connection (Status out) = true ->
      connection_open
        (fst (QueryConnection src
                (NewQueryContext context_TODO (fst (LatestHeight src)))))
      /\ connection_open
           (fst (QueryConnection dst
                   (NewQueryContext context_TODO (fst (LatestHeight dst))))))
  /\ (Channel (Status out) = true ->
      channel_open
        (fst (QueryChannel src
                (NewQueryContext context_TODO (fst (LatestHeight src)))))
      /\ channel_open
           (fst (QueryChannel dst
                   (NewQueryContext context_TODO (fst (LatestHeight dst)))))).
Proof.
  unfold QueryPathStatus. cbv zeta.
  destruct (LatestHeight src) as [srch e1].
  destruct (LatestHeight dst) as [dsth e2]. cbn [fst].
  run_check; cbn [fst]; intros Hout; try discriminate;
    injection Hout as <-; cbn; read_guards;
    repeat split; intros; try discriminate; assumption.
Qed.

Lemma QueryPathStatus_flags_sound_witness :
  connection_open
    (fst (QueryConnection (chain_open height5)
            (NewQueryContext context_TODO (Some height5)))).
Proof.
  refine (proj1 (proj1 (proj2 (proj2
            (QueryPathStatus_flags_sound in_order path01
               (chain_open height5) (chain_closed height9)
               {| pws_Path := path01; Status := reached 3 |} _))) _)).
  - vm_compute. reflexivity.
  - reflexivity.
Defined.








(** Stage 1 is decided by the later of the two assignments to [err]: when
    the [LatestHeight] call of the goroutine that assigns last failed, the
    check returns with every flag false after its two calls; when that call
    succeeded, [Chains] is set in every status the check returns, whatever
    the other call returned. *)
Theorem QueryPathStatus_stage1 (sch : schedule) (p : Path) (src dst : ProvableChain) :
  (last_assigned (stage1 sch) (snd (LatestHeight src)) (snd (LatestHeight dst))
     <> None ->
   QueryPathStatus sch p src dst
   = (Returns {| pws_Path := p; Status := reached 0 |},
      calls_of (stage1 sch) (ev_LatestHeight side_src) (ev_LatestHeight side_dst)))
  /\ (last_assigned (stage1 sch) (snd (LatestHeight src)) (snd (LatestHeight dst))
        = None ->
      forall out, fst (QueryPathStatus sch p src dst) = Returns out ->
                  Chains (Status out) = true).
Proof.
  unfold QueryPathStatus. cbv zeta.
  destruct (LatestHeight src) as [srch e1].
  destruct (LatestHeight dst) as [dsth e2]. cbn [snd].
  rewrite go_both_err, go_both_calls. cbn [calls app].
  destruct (last_assigned (stage1 sch) e1 e2) as [e|]; cbn [negb is_nil].
  - split; [reflexivity | intros; discriminate].
  - split; [intros H; now contradiction H|]. intros _ out.
    run_check; cbn [fst]; intros Hout; try discriminate;
      injection Hout as <-; reflexivity.
Qed.

Lemma go_both_sequential_error (i : interleaving) (e_src e_dst : error)
    (c_src c_dst : event) (st : shared) :
  sequential i = true ->
  e_src <> None \/ e_dst <> None ->
  negb (is_nil (err (wait_err (go_both i e_src e_dst c_src c_dst st)))) = true.
Proof.
  intros Hi He. cbn [err wait_err]. unfold Group_Wait.
  destruct (group_err (eg (go_both i e_src e_dst c_src c_dst st))) eqn:Hg;
    [reflexivity|].
  apply go_both_sequential in Hg as [-> ->]; [|exact Hi].
  destruct He as [He|He]; now contradiction He.
Qed.

Section StageFailures.

Variable sch : schedule.
Variable p : Path.
Variables src dst : ProvableChain.

Let q_src : QueryContext := NewQueryContext context_TODO (fst (LatestHeight src)).
Let q_dst : QueryContext := NewQueryContext context_TODO (fst (LatestHeight dst)).

(** When both heights are fetched and a client-state query returns no
    response -- or returns an error, with the goroutines of stage 2 running
    one after the other -- the check returns with only [Chains] set. *)
Theorem QueryPathStatus_client_failure :
  snd (LatestHeight src) = None ->
  snd (LatestHeight dst) = None ->
  fst (QueryClientState src q_src) = None
  \/ fst (QueryClientState dst q_dst) = None
  \/ (sequential (stage2 sch) = true
      /\ (snd (QueryClientState src q_src) <> None
          \/ snd (QueryClientState dst q_dst) <> None)) ->
  fst (QueryPathStatus sch p src dst)
  = Returns {| pws_Path := p; Status := reached 1 |}.
Proof.
  subst q_src q_dst. intros Hs Hd Hfail. unfold QueryPathStatus. cbv zeta.
  destruct (LatestHeight src) as [srch e1]. cbn in Hs. subst e1.
  destruct (LatestHeight dst) as [dsth e2]. cbn in Hd. subst e2.
  rewrite go_both_err. cbn [fst] in *.
  replace (negb (is_nil (last_assigned (stage1 sch) None None))) with false
    by now destruct (stage1 sch).
  destruct (QueryClientState src _) as [srcCs e3].
  destruct (QueryClientState dst _) as [dstCs e4]. cbn [fst snd] in Hfail.
  match goal with
  | |- context [if ?c then _ else _] => replace c with true; [reflexivity|]
  end.
  symmetry. destruct Hfail as [-> | [-> | [Hseq Herr]]].
  - cbn. now rewrite orb_true_r.
  - cbn. now rewrite orb_true_r.
  - now rewrite go_both_sequential_error.
Qed.

(** When both heights are fetched, both clients are there and a connection
    query returns an error, with the goroutines of stage 3 running one after
    the other, the check returns with [Chains] and [Clients] set: the
    responses are not read. *)
Theorem QueryPathStatus_connection_error
    (srcCs dstCs : clienttypes.QueryClientStateResponse) :
  snd (LatestHeight src) = None ->
  snd (LatestHeight dst) = None ->
  QueryClientState src q_src = (Some srcCs, None) ->
  QueryClientState dst q_dst = (Some dstCs, None) ->
  sequential (stage3 sch) = true ->
  snd (QueryConnection src q_src) <> None
  \/ snd (QueryConnection dst q_dst) <> None ->
  fst (QueryPathStatus sch p src dst)
  = Returns {| pws_Path := p; Status := reached 2 |}.
Proof.
  subst q_src q_dst. intros Hs Hd Hc1 Hc2 Hseq Herr.
  unfold QueryPathStatus. cbv zeta.
  destruct (LatestHeight src) as [srch e1]. cbn in Hs. subst e1.
  destruct (LatestHeight dst) as [dsth e2]. cbn in Hd. subst e2.
  cbn [fst] in *. rewrite Hc1, Hc2. rewrite !go_both_nil.
  destruct (QueryConnection src _) as [srcConn e5].
  destruct (QueryConnection dst _) as [dstConn e6]. cbn [snd] in Herr.
  rewrite go_both_sequential_error by assumption. reflexivity.
Qed.

(** When both heights are fetched, both clients are there, both
    connections are open and a channel query returns an error, with the
    goroutines of stage 4 running one after the other, the check returns
    with the first three flags set: the responses are not read. *)
Theorem QueryPathStatus_channel_error
    (srcCs dstCs : clienttypes.QueryClientStateResponse) :
  snd (LatestHeight src) = None ->
  snd (LatestHeight dst) = None ->
  QueryClientState src q_src = (Some srcCs, None) ->
  QueryClientState dst q_dst = (Some dstCs, None) ->
  QueryConnection src q_src = (conn_resp conntypes.OPEN, None) ->
  QueryConnection dst q_dst = (conn_resp conntypes.OPEN, None) ->
  sequential (stage4 sch) = true ->
  snd (QueryChannel src q_src) <> None
  \/ snd (QueryChannel dst q_dst) <> None ->
  fst (QueryPathStatus sch p src dst)
  = Returns {| pws_Path := p; Status := reached 3 |}.
Proof.
  subst q_src q_dst. intros Hs Hd Hc1 Hc2 Hn1 Hn2 Hseq Herr.
  unfold QueryPathStatus. cbv zeta.
  destruct (LatestHeight src) as [srch e1]. cbn in Hs. subst e1.
  destruct (LatestHeight dst) as [dsth e2]. cbn in Hd. subst e2.
  cbn [fst] in *. rewrite Hc1, Hc2, Hn1, Hn2. rewrite !go_both_nil.
  destruct (QueryChannel src _) as [srcChan e7].
  destruct (QueryChannel dst _) as [dstChan e8]. cbn [snd] in Herr.
  rewrite go_both_sequential_error by assumption. reflexivity.
Qed.

End StageFailures.

Lemma QueryPathStatus_client_failure_witness :
  fst (QueryPathStatus in_order path01
         (chain_open height5) (chain_client_error height9))
  = Returns {| pws_Path := path01; Status := reached 1 |}.
Proof.
  apply (QueryPathStatus_client_failure in_order path01
           (chain_open height5) (chain_client_error height9)).
  - reflexivity.
  - reflexivity.
  - right. right. split; [reflexivity|]. right. discriminate.
Defined.

Lemma QueryPathStatus_connection_error_witness :
  fst (QueryPathStatus in_order path01
         (chain_conn_error height5) (chain_open height9))
  = Returns {| pws_Path := path01; Status := reached 2 |}.
Proof.
  apply (QueryPathStatus_connection_error in_order path01
           (chain_conn_error height5) (chain_open height9)
           {| clienttypes.ClientState := "07-tendermint" |}
           {| clienttypes.ClientState := "07-tendermint" |}).
  - reflexivity.
  - reflexivity.
  - reflexivity.
  - reflexivity.
  - reflexivity.
  - left. discriminate.
Defined.

Lemma QueryPathStatus_channel_error_witness :
  fst (QueryPathStatus in_order path01
         (chain_open height5) (chain_chan_error height9))
  = Returns {| pws_Path := path01; Status := reached 3 |}.
Proof.
  apply (QueryPathStatus_channel_error in_order path01
           (chain_open height5) (chain_chan_error height9)
           {| clienttypes.ClientState := "07-tendermint" |}
           {| clienttypes.ClientState := "07-tendermint" |}).
  - reflexivity.
  - reflexivity.
  - reflexivity.
  - reflexivity.
  - reflexivity.
  - reflexivity.
  - reflexivity.
  - right. discriminate.
Defined.

Lemma QueryPathStatus_channel_not_open_witness :
  fst (QueryPathStatus overlapped path01
         (chain_open height5) (chain_closed height9))
  = Returns {| pws_Path := path01; Status := reached 3 |}.
Proof.
  apply (QueryPathStatus_channel_not_open overlapped path01
           (chain_open height5) (chain_closed height9)
           {| clienttypes.ClientState := "07-tendermint" |}
           {| clienttypes.ClientState := "07-tendermint" |}
           chantypes.OPEN chantypes.CLOSED).
  - reflexivity.
  - reflexivity.
  - reflexivity.
  - reflexivity.
  - reflexivity.
  - reflexivity.
  - reflexivity.
  - reflexivity.
  - discriminate.
Defined.

Lemma QueryPathStatus_all_open_witness :
  fst (QueryPathStatus overlapped path01
         (chain_open height5) (chain_open height9))
  = Returns {| pws_Path := path01; Status := reached 4 |}.
Proof.
  apply (QueryPathStatus_all_open overlapped path01
           (chain_open height5) (chain_open height9)
           {| clienttypes.ClientState := "07-tendermint" |}
           {| clienttypes.ClientState := "07-tendermint" |});
    reflexivity.
Defined.

(** A failed query is not always noticed: when both goroutines of stage 3
    assign before either returns, the source's connection query fails with a
    nil response and the destination's succeeds, the destination's nil error
    is what both goroutines return, and the check panics on the source's
    response. *)
Theorem QueryPathStatus_hidden_connection_error (sch : schedule) (p : Path)
    (src dst : ProvableChain)
    (srcCs dstCs : clienttypes.QueryClientStateResponse) (e : string)
    (dstConn : option conntypes.QueryConnectionResponse) :
  snd (LatestHeight src) = None ->
  snd (LatestHeight dst) = None ->
  QueryClientState src (NewQueryContext context_TODO (fst (LatestHeight src)))
  = (Some srcCs, None) ->
  QueryClientState dst (NewQueryContext context_TODO (fst (LatestHeight dst)))
  = (Some dstCs, None) ->
  QueryConnection src (NewQueryContext context_TODO (fst (LatestHeight src)))
  = (None, Some e) ->
  QueryConnection dst (NewQueryContext context_TODO (fst (LatestHeight dst)))
  = (dstConn, None) ->
  stage3 sch = src_dst_assign_src_dst_return
  \/ stage3 sch = src_dst_assign_dst_src_return ->
  fst (QueryPathStatus sch p src dst) = Panics.
Proof.
  intros Hs Hd Hc1 Hc2 Hn1 Hn2 Hi. unfold QueryPathStatus. cbv zeta.
  destruct (LatestHeight src) as [srch e1]. cbn in Hs. subst e1.
  destruct (LatestHeight dst) as [dsth e2]. cbn in Hd. subst e2.
  cbn [fst] in *. rewrite Hc1, Hc2, Hn1, Hn2. rewrite !go_both_nil.
  destruct Hi as [-> | ->]; reflexivity.
Qed.

Lemma QueryPathStatus_hidden_connection_error_witness :
  fst (QueryPathStatus overlapped path01
         (chain_conn_error height5) (chain_open height9))
  = Panics.
Proof.
  apply (QueryPathStatus_hidden_connection_error overlapped path01
           (chain_conn_error height5) (chain_open height9)
           {| clienttypes.ClientState := "07-tendermint" |}
           {| clienttypes.ClientState := "07-tendermint" |}
           "connection not found" (conn_resp conntypes.OPEN)).
  - reflexivity.
  - reflexivity.
  - reflexivity.
  - reflexivity.
  - reflexivity.
  - reflexivity.
  - left. reflexivity.
Defined.

(** ** More on the Ethereum helpers *)

Section SignerUse.

Context {Address PrivateKey PublicKey Digest Signature Tx : Type}.
Context `{EqDecision Address}.
Variable PublicKey_of : PrivateKey -> PublicKey.
Variable PubkeyToAddress : PublicKey -> Address.
Variable EIP155_Hash : Z -> Tx -> Digest.
Variable Sign : Digest -> PrivateKey -> Signature * error.
Variable sign_values : Z -> Tx -> Signature -> Tx + string.
Variable chain : Chain (PrivateKey := PrivateKey).

Let TxOpts (ctx : Context) : TransactOpts :=
  Chain_TxOpts PublicKey_of PubkeyToAddress EIP155_Hash Sign sign_values chain ctx.
Let CallOpts_ (ctx : Context) : CallOpts :=
  Chain_CallOpts PublicKey_of PubkeyToAddress chain ctx.

(** The address that [CallOpts] queries from is the address that [TxOpts]
    signs for, whatever the contexts: the signer of [TxOpts], called with the
    [From] of [CallOpts] on a transaction, calls [gethcrypto.Sign] once, on
    the EIP155 digest of that transaction with the held key; and [CallOpts]
    carries the context it was given. *)
Theorem Chain_CallOpts_TxOpts (ctx ctx' : Context) (tx : positive) (t : Tx)
    (w : world (Digest := Digest) (PrivateKey := PrivateKey) (Tx := Tx)) :
  call_From (CallOpts_ ctx') = From (TxOpts ctx)
  /\ call_Context (CallOpts_ ctx') = ctx'
  /\ (txs w !! tx = Some t ->
      exists res w',
        Signer (TxOpts ctx) (call_From (CallOpts_ ctx')) tx w = Returns (res, w')
        /\ signatures w'
           = (signatures w
                ++ [(EIP155_Hash (chainID chain) t, relayerPrvKey chain)])%list).
Proof.
  split; [reflexivity|]. split; [reflexivity|]. intros Htx.
  destruct (Signer_authorized PublicKey_of PubkeyToAddress EIP155_Hash Sign
              sign_values chain ctx tx t w Htx)
    as (res & w' & Hrun & Hsig & _).
  exists res, w'. split; [exact Hrun | exact Hsig].
Qed.

(** Signing the same transaction twice, when [gethcrypto.Sign] and
    [WithSignature] succeed: each call returns a transaction object of its
    own, different from the other and from the one given; both hold the
    transaction combined with the signature; the transaction given is as it
    was; and [gethcrypto.Sign] was called twice on the same digest. *)
Theorem Signer_twice (ctx : Context) (tx : positive) (t t' : Tx) (sig : Signature)
    (w : world (Digest := Digest) (PrivateKey := PrivateKey) (Tx := Tx)) :
  txs w !! tx = Some t ->
  Sign (EIP155_Hash (chainID chain) t) (relayerPrvKey chain) = (sig, None) ->
  sign_values (chainID chain) t sig = inl t' ->
  exists l1 l2 w1 w2,
    Signer (TxOpts ctx) (From (TxOpts ctx)) tx w = Returns ((Some l1, None), w1)
    /\ Signer (TxOpts ctx) (From (TxOpts ctx)) tx w1 = Returns ((Some l2, None), w2)
    /\ l1 <> l2 /\ l1 <> tx /\ l2 <> tx
    /\ txs w2 !! l1 = Some t' /\ txs w2 !! l2 = Some t'
    /\ txs w2 !! tx = Some t
    /\ signatures w2
       = (signatures w
            ++ [(EIP155_Hash (chainID chain) t, relayerPrvKey chain);
                (EIP155_Hash (chainID chain) t, relayerPrvKey chain)])%list.
Proof.
  intros Htx Hsign Hvalues.
  destruct (Signer_authorized PublicKey_of PubkeyToAddress EIP155_Hash Sign
              sign_values chain ctx tx t w Htx)
    as (res1 & w1 & Hrun1 & Hsig1 & Hkeep1 & Hres1).
  rewrite Hsign, Hvalues in Hres1. destruct Hres1 as (l1 & -> & Hnew1 & Htxs1).
  assert (Htx1 : txs w1 !! tx = Some t) by now apply Hkeep1.
  destruct (Signer_authorized PublicKey_of PubkeyToAddress EIP155_Hash Sign
              sign_values chain ctx tx t w1 Htx1)
    as (res2 & w2 & Hrun2 & Hsig2 & Hkeep2 & Hres2).
  rewrite Hsign, Hvalues in Hres2. destruct Hres2 as (l2 & -> & Hnew2 & Htxs2).
  assert (Hl1 : txs w1 !! l1 = Some t')
    by (rewrite Htxs1; apply lookup_insert_eq).
  exists l1, l2, w1, w2.
  split; [exact Hrun1|]. split; [exact Hrun2|].
  split; [congruence|]. split; [congruence|]. split; [congruence|].
  split; [now apply Hkeep2|].
  split; [rewrite Htxs2; apply lookup_insert_eq|].
  split; [now apply Hkeep2|].
  rewrite Hsig2, Hsig1, <- app_assoc. reflexivity.
Qed.

End SignerUse.

Lemma Signer_twice_witness :
  exists l1 l2 w1 w2,
    Signer toy_TxOpts 85%Z 1%positive toy_world = Returns ((Some l1, None), w1)
    /\ Signer toy_TxOpts 85%Z 1%positive w1 = Returns ((Some l2, None), w2)
    /\ l1 <> l2.
Proof.
  destruct (Signer_twice toy_PublicKey_of toy_PubkeyToAddress toy_Hash toy_Sign
              toy_sign_values toy_chain context_TODO 1%positive
              {| payload := 7; signed_with := None |}
              {| payload := 7; signed_with := Some 1596%Z |} 1596%Z toy_world
              (lookup_singleton_eq _ _) eq_refl eq_refl)
    as (l1 & l2 & w1 & w2 & H1 & H2 & Hne & _).
  exists l1, l2, w1, w2. split; [exact H1|]. split; [exact H2 | exact Hne].
Defined.

(** ** [parseChainID] *)

Lemma digit_of_digit_char (d : nat) :
  d < 10 -> digit_of (digit_char d) = Some (Z.of_nat d)
            /\ digit_char d <> "+"%char /\ digit_char d <> "-"%char.
Proof.
  intros Hd. do 10 (destruct d as [|d]; [repeat split; discriminate|]). lia.
Qed.

Lemma scan_digits_string (ds : list nat) (acc : Z) :
  Forall (fun d => d < 10) ds ->
  scan_digits acc (digits_string ds)
  = Some (fold_left (fun a d => (10 * a + Z.of_nat d)%Z) ds acc).
Proof.
  intros Hds. revert acc. induction Hds as [|d ds Hd _ IH]; intros acc.
  - reflexivity.
  - cbn [digits_string scan_digits fold_left].
    destruct (digit_of_digit_char d Hd) as (-> & _). apply IH.
Qed.

Lemma scan_digits_stops (s1 s2 : string) (c : ascii) (acc : Z) :
  digit_of c = None -> scan_digits acc (s1 +:+ String c s2) = None.
Proof.
  intros Hc. revert acc. induction s1 as [|c1 s1 IH]; intros acc.
  - change ("" +:+ String c s2) with (String c s2).
    cbn [scan_digits]. now rewrite Hc.
  - rewrite append_cons. cbn [scan_digits].
    destruct (digit_of c1); [apply IH | reflexivity].
Qed.

Lemma big_SetString_10_digits (ds : list nat) :
  ds <> [] -> Forall (fun d => d < 10) ds ->
  big_SetString_10 (digits_string ds) = Some (digits_value ds).
Proof.
  intros Hne Hds. destruct ds as [|d ds]; [contradiction|].
  pose proof (scan_digits_string (d :: ds) 0 Hds) as Hscan.
  inversion Hds as [|? ? Hd _]; subst.
  destruct (digit_of_digit_char d Hd) as (_ & Hplus & Hminus).
  unfold big_SetString_10. cbn [digits_string] in *.
  destruct (digit_char d) as [[] [] [] [] [] [] [] []]; try contradiction;
    rewrite Hscan; reflexivity.
Qed.

Lemma big_SetString_10_signed (s : string) :
  s <> "" ->
  big_SetString_10 (String "-"%char s)
  = match scan_digits 0 s with Some v => Some (- v)%Z | None => None end
  /\ big_SetString_10 (String "+"%char s)
     = match scan_digits 0 s with Some v => Some v | None => None end.
Proof. intros Hne. destruct s; [contradiction|]. split; reflexivity. Qed.

(** [parseChainID] reads a chain identifier in base 10. A non-empty string
    of decimal digits gives the number it denotes, also with leading zeros;
    with a minus sign before it the negated number, with a plus sign the
    number itself. The empty string, a sign alone, and every string with a
    character that is neither a decimal digit nor a sign at the front are
    refused with an error that quotes the input. *)
Theorem parseChainID_spec :
  (forall ds, ds <> [] -> Forall (fun d => d < 10) ds ->
     parseChainID (digits_string ds) = (Some (digits_value ds), None)
     /\ parseChainID ("-" +:+ digits_string ds)
        = (Some (- digits_value ds)%Z, None)
     /\ parseChainID ("+" +:+ digits_string ds)
        = (Some (digits_value ds), None))
  /\ (forall s, s = "" \/ s = "+" \/ s = "-" ->
        parseChainID s = (None, Some ("the chainID is invalid format: " +:+ s)))
  /\ (forall s1 c s2,
        digit_of c = None ->
        s1 <> "" \/ (c <> "+"%char /\ c <> "-"%char) ->
        parseChainID (s1 +:+ String c s2)
        = (None, Some ("the chainID is invalid format: "
                         +:+ (s1 +:+ String c s2)))).
Proof.
  split; [|split].
  - intros ds Hne Hds.
    assert (Hscan := scan_digits_string ds 0 Hds).
    assert (Hnonempty : digits_string ds <> "")
      by (destruct ds; [contradiction | discriminate]).
    unfold parseChainID. rewrite (big_SetString_10_digits ds Hne Hds).
    split; [reflexivity|].
    destruct (big_SetString_10_signed _ Hnonempty) as [Hminus Hplus].
    change ("-" +:+ digits_string ds) with (String "-"%char (digits_string ds)).
    change ("+" +:+ digits_string ds) with (String "+"%char (digits_string ds)).
    rewrite Hminus, Hplus, Hscan. split; reflexivity.
  - intros s [-> | [-> | ->]]; reflexivity.
  - intros s1 c s2 Hc Hfront. unfold parseChainID.
    replace (big_SetString_10 (s1 +:+ String c s2)) with (@None Z);
      [reflexivity|].
    symmetry. unfold big_SetString_10.
    destruct s1 as [|c1 s1].
    + destruct Hfront as [Hfront | [Hplus Hminus]]; [contradiction|].
      change ("" +:+ String c s2) with (String c s2).
      assert (Hscan : scan_digits 0 (String c s2) = None)
        by (cbn [scan_digits]; now rewrite Hc).
      destruct c as [[] [] [] [] [] [] [] []]; try contradiction;
        now rewrite Hscan.
    + rewrite append_cons.
      assert (Hrest : scan_digits 0 (s1 +:+ String c s2) = None)
        by now apply scan_digits_stops.
      assert (Hall : scan_digits 0 (String c1 (s1 +:+ String c s2)) = None).
      { cbn [scan_digits]. destruct (digit_of c1); [|reflexivity].
        now apply scan_digits_stops. }
      assert (Hne : s1 +:+ String c s2 <> "")
        by (destruct s1; discriminate).
      destruct c1 as [[] [] [] [] [] [] [] []];
        try (now rewrite Hall);
        rewrite Hrest; destruct (s1 +:+ String c s2); try reflexivity;
        contradiction.
Qed.

(** ** The status report *)

Lemma status_lines_injective (s1 s2 : PathStatus) :
  status_lines s1 = status_lines s2 -> s1 = s2.
Proof.
  destruct s1 as [a1 b1 c1 d1], s2 as [a2 b2 c2 d2].
  destruct a1, b1, c1, d1, a2, b2, c2, d2; intros H;
    first [reflexivity | vm_compute in H; discriminate H].
Qed.

(** The report shows the status without ambiguity: for the same name and
    the same path, two reports are equal only if the four flags are; and
    the mark of a set flag differs from the mark of a flag that is not
    set. *)
Theorem PrintString_status (ps1 ps2 : PathWithStatus) (name : string) :
  checkmark true <> checkmark false
  /\ (pws_Path ps1 = pws_Path ps2 ->
      PathWithStatus_PrintString ps1 name = PathWithStatus_PrintString ps2 name ->
      Status ps1 = Status ps2).
Proof.
  split; [discriminate|].
  unfold PathWithStatus_PrintString. intros -> Heq.
  apply append_inv_head in Heq. now apply status_lines_injective.
Qed.

(** The report for a checked path. *)
Example PrintString_sample :
  PathWithStatus_PrintString {| pws_Path := path01; Status := reached 2 |} "demo"
  = "Path " +:+ dq +:+ "demo" +:+ dq +:+ " strategy(naive):" +:+ nl
    +:+ "  SRC(ibc0)" +:+ nl
    +:+ "    ClientID:     tendermintaa" +:+ nl
    +:+ "    ConnectionID: connectionaa" +:+ nl
    +:+ "    ChannelID:    channelaa" +:+ nl
    +:+ "    PortID:       transfer" +:+ nl
    +:+ "  DST(ibc1)" +:+ nl
    +:+ "    ClientID:     tendermintbb" +:+ nl
    +:+ "    ConnectionID: connectionbb" +:+ nl
    +:+ "    ChannelID:    channelbb" +:+ nl
    +:+ "    PortID:       transfer" +:+ nl
    +:+ "  STATUS:" +:+ nl
    +:+ "    Chains:       ✔" +:+ nl
    +:+ "    Clients:      ✔" +:+ nl
    +:+ "    Connection:   ✘" +:+ nl
    +:+ "    Channel:      ✘".
Proof. vm_compute. reflexivity. Qed.
